(** * validator.js: the JSON schema matcher and its orchestrator

    A shallow embedding of [web dev coursework 2/validator.js]: the type-tag
    helper [typeOf], the recursive matcher [validateAgainstSchema], the
    reporting step [showValidationPanel] and the fetch-validate-render
    wrapper [validateAndRender], followed by the properties of the
    specification that concern them. *)

From Stdlib Require Import String Ascii List ZArith Bool Arith DecimalString.
From Stdlib Require Import PrimFloat.
Import ListNotations.
Local Open Scope string_scope.
Local Open Scope list_scope.

Set Implicit Arguments.
Set Warnings "-register-all".

(** ** JavaScript values *)

(** The values the validator can be handed.  Numbers are binary64 floats,
    arrays are dense, and an object is the list of its own enumerable
    string-keyed properties in enumeration order (what [Object.entries]
    walks).  Objects decoded from JSON inherit from [Object.prototype]. *)
Inductive value : Type :=
| VNull
| VUndefined
| VBool (b : bool)
| VNum (n : float)
| VStr (s : string)
| VArr (elements : list value)
| VObj (entries : list (string * value))
| VFun (id : nat).

(** [typeof v], the language-native tag. *)
Definition typeof (v : value) : string :=
  match v with
  | VUndefined => "undefined"
  | VNull => "object"
  | VBool _ => "boolean"
  | VNum _ => "number"
  | VStr _ => "string"
  | VArr _ => "object"
  | VObj _ => "object"
  | VFun _ => "function"
  end.

(** [v === null]. *)
Definition isNull (v : value) : bool :=
  match v with VNull => true | _ => false end.

(** [Array.isArray(v)]. *)
Definition isArray (v : value) : bool :=
  match v with VArr _ => true | _ => false end.

(** ToBoolean: [undefined], [null], [false], [0], [-0], [NaN] and the empty
    string are falsy. *)
Definition truthy (v : value) : bool :=
  match v with
  | VNull | VUndefined => false
  | VBool b => b
  | VNum n => negb (PrimFloat.is_zero n || PrimFloat.is_nan n)
  | VStr s => negb (s =? "")
  | VArr _ | VObj _ | VFun _ => true
  end.

(** Truthiness of a string, as in [path ? a : b]. *)
Definition truthyStr (s : string) : bool := negb (s =? "").

(** Lines 3-7. *)
Definition typeOf (v : value) : string :=
  if isNull v then "null"
  else if isArray v then "array"
  else typeof v.

(** ** Strings of the messages *)

(** The double-quote character used inside the messages. *)
Definition dq : string := String "034"%char EmptyString.

(** U+2192, the arrow of the anyOf warnings, in UTF-8. *)
Definition arrow : string :=
  String "226"%char (String "134"%char (String "146"%char EmptyString)).

(** Decimal rendering of an array length or index. *)
Definition showNat (n : nat) : string := NilZero.string_of_uint (Nat.to_uint n).

(** Decimal rendering of an integer such as [minItems]. *)
Definition showZ (z : Z) : string := NilZero.string_of_int (Z.to_int z).

(** [s.endsWith(suffix)]. *)
Definition endsWith (s suffix : string) : bool :=
  (String.length suffix <=? String.length s)%nat
  && (substring (String.length s - String.length suffix) (String.length suffix) s
      =? suffix).

(** [url.replace(/\.json$/, '')]: a trailing [.json] is removed. *)
Definition stripJsonSuffix (url : string) : string :=
  if endsWith url ".json"
  then substring 0 (String.length url - 5) url
  else url.

(** ** Properties of objects *)

(** The property names every ordinary object inherits from
    [Object.prototype]. *)
Definition objectPrototypeKeys : list string :=
  [ "constructor"; "__defineGetter__"; "__defineSetter__"; "hasOwnProperty";
    "__lookupGetter__"; "__lookupSetter__"; "isPrototypeOf";
    "propertyIsEnumerable"; "toString"; "valueOf"; "__proto__";
    "toLocaleString" ].

Definition memStr (k : string) (l : list string) : bool :=
  existsb (String.eqb k) l.

(** Own-property test on an entry list. *)
Definition hasOwn {A} (k : string) (entries : list (string * A)) : bool :=
  memStr k (map fst entries).

(** [k in obj] for an ordinary object: own properties, then the prototype
    chain. *)
Definition hasProperty (k : string) (entries : list (string * value)) : bool :=
  hasOwn k entries || memStr k objectPrototypeKeys.

(** Own-property lookup, [obj[k]] restricted to own properties. *)
Fixpoint assoc {A} (k : string) (l : list (string * A)) : option A :=
  match l with
  | [] => None
  | (k', a) :: rest => if k =? k' then Some a else assoc k rest
  end.

(** [assoc] with a function applied to the value found. *)
Definition assocWith {A B} (f : A -> B) (k : string)
  : list (string * A) -> option B :=
  fix go (l : list (string * A)) : option B :=
    match l with
    | [] => None
    | (k', a) :: rest => if k =? k' then Some (f a) else go rest
    end.

(** The elements of a list with their indices, as [forEach((x, i) => ...)]
    visits them. *)
Definition indexed {A} (l : list A) : list (nat * A) :=
  combine (seq 0 (length l)) l.

(** [a || b]. *)
Definition orElse (a b : value) : value := if truthy a then a else b.

(** [Object.entries(data || {})].  The object branch is entered only behind
    the type gate, where the data is an ordinary object
    ([typeOf_object_inv] below). *)
Definition entriesOf (data : value) : list (string * value) :=
  match orElse data (VObj []) with
  | VObj entries => entries
  | _ => []
  end.

(** The elements of [data || []]; behind the type gate the data is an array
    ([typeOf_array_inv]). *)
Definition elementsOf (data : value) : list value :=
  match orElse data (VArr []) with
  | VArr elements => elements
  | _ => []
  end.

(** The subject of [re.test(data)]; behind the type gate the data is a
    string ([typeOf_string_inv]). *)
Definition stringOf (data : value) : string :=
  match data with
  | VStr s => s
  | _ => ""
  end.

(** ** Completions and the state monad of the embedding *)

(** How a JavaScript computation ends: normally with a value, or by
    throwing.  A thrown value is an [Error]; [message] is its message as a
    template literal renders it. *)
Inductive completion (A : Type) : Type :=
| Normal (a : A)
| Throw (message : string).
Arguments Normal {A} a.
Arguments Throw {A} message.

(** Computations over a state [S] that may throw. *)
Definition M (S A : Type) : Type := S -> completion A * S.

Definition ret {S A} (a : A) : M S A := fun s => (Normal a, s).

Definition throw {S A} (message : string) : M S A := fun s => (Throw message, s).

Definition bind {S A B} (c : M S A) (k : A -> M S B) : M S B :=
  fun s =>
    match c s with
    | (Normal a, s') => k a s'
    | (Throw m, s') => (Throw m, s')
    end.

(** [try { c } catch (e) { handler(e.message) }]. *)
Definition tryCatch {S A} (c : M S A) (handler : string -> M S A) : M S A :=
  fun s =>
    match c s with
    | (Normal a, s') => (Normal a, s')
    | (Throw m, s') => handler m s'
    end.

(** A computation that neither depends on the state nor changes it. *)
Definition stateless {S A} (c : M S A) : Prop :=
  exists r : completion A, forall s, c s = (r, s).

Notation "x <- c ;; k" := (bind c (fun x => k))
  (at level 61, c at next level, right associativity).

(** [xs.map(f)] for an effectful [f]: elements are visited in order and the
    first throw ends the walk. *)
Definition mapM {S A B} (f : A -> M S B) : list A -> M S (list B) :=
  fix go (l : list A) : M S (list B) :=
    match l with
    | [] => ret []
    | x :: xs => y <- f x ;; ys <- go xs ;; ret (y :: ys)
    end.

(** ** Schemas and the matcher *)

Section Validator.

(** Everything outside the validator that a caller-supplied function can
    read or change: closures, globals, the page. *)
Variable World : Type.

(** [new RegExp(pattern)]: a [SyntaxError] for a malformed pattern,
    otherwise the [test] function of the compiled expression (no flags, so
    [test] keeps no state). *)
Variable RegExp : string -> completion (string -> bool).

(** A [custom] hook: called with the data, it returns a value or throws, and
    may use the world. *)
Definition hook : Type := value -> M World value.

(** The schema dialect: every field is optional. *)
Inductive Schema : Type :=
  mkSchema {
    type : option string;
    properties : option (list (string * Schema));
    required : option (list string);
    items : option Schema;
    minItems : option Z;
    pattern : option string;
    anyOf : option (list Schema);
    custom : option hook
  }.

(** The schema [{}]. *)
Definition emptySchema : Schema :=
  mkSchema None None None None None None None None.

(** [{ errors, warnings }]. *)
Record Result : Type := mkResult { errors : list string; warnings : list string }.

Definition emptyResult : Result := mkResult [] [].

(** Line 13-14: the text pushed by [addE] and [addW]. *)
Definition withPath (path msg : string) : string :=
  if truthyStr path then path ++ ": " ++ msg else msg.

Definition addE (path : string) (errors : list string) (msg : string) : list string :=
  errors ++ [withPath path msg].

Definition addW (path : string) (warnings : list string) (msg : string) : list string :=
  warnings ++ [withPath path msg].

(** [r.errors.length === 0]. *)
Definition noErrors (r : Result) : bool := (length (errors r) =? 0)%nat.

(** The messages. *)
Definition msgAnyOf : string := "Value must match one of the allowed shapes.".

Definition msgType (expected actual : string) : string :=
  "Expected type " ++ dq ++ expected ++ dq ++ " but got " ++ dq ++ actual ++ dq ++ ".".

Definition msgMissing (k : string) : string :=
  "Missing required key " ++ dq ++ k ++ dq ++ ".".

Definition msgThrew (m : string) : string := "Custom validator threw: " ++ m.

Definition msgMinItems (actual : nat) (expected : Z) : string :=
  "Array has " ++ showNat actual ++ " items; expected at least " ++ showZ expected ++ ".".

Definition msgPattern (p : string) : string :=
  "String does not match pattern " ++ p ++ ".".

Definition msgAlternative (i : nat) (e : string) : string :=
  "anyOf[" ++ showNat i ++ "] " ++ arrow ++ " " ++ e.

(** Lines 19-27: what the anyOf branch returns from the alternatives'
    results.  [find] on a list without a match yields [undefined], whose
    [warnings] cannot be read. *)
Definition anyOfResult (path : string) (results : list Result) : M World Result :=
  let ok := existsb noErrors results in
  if negb ok then
    let es := addE path [] msgAnyOf in
    let ws :=
      fold_left
        (fun ws ir =>
           fold_left (fun ws e => addW path ws (msgAlternative (fst ir) e))
                     (errors (snd ir)) ws)
        (indexed results) [] in
    ret (mkResult es ws)
  else
    match find noErrors results with
    | Some firstOK => ret (mkResult [] ([] ++ warnings firstOK))
    | None => throw "Cannot read properties of undefined (reading 'warnings')"
    end.

(** [schema.type && schema.type !== t]: the declared tag when the test
    holds. *)
Definition typeDiffers (type : option string) (t : string) : option string :=
  match type with
  | Some ty => if truthyStr ty && negb (ty =? t) then Some ty else None
  | None => None
  end.

(** [schema.type === name]. *)
Definition typeIs (type : option string) (name : string) : bool :=
  match type with
  | Some ty => ty =? name
  | None => false
  end.

(** Lines 39-41: the missing-key errors, in the order of [required]. *)
Definition checkRequired (path : string) (req : list string) (data : value)
    (errors : list string) : list string :=
  fold_left
    (fun es k => if negb (hasProperty k (entriesOf data)) then addE path es (msgMissing k) else es)
    req errors.

(** Lines 49-56: the custom hook, its throw caught. *)
Definition runCustom (path : string) (custom : option hook) (data : value)
    (errors : list string) : M World (list string) :=
  match custom with
  | Some f =>
      tryCatch
        (msg <- f data ;;
         match msg with
         | VStr s => if truthyStr s then ret (addE path errors s) else ret errors
         | _ => ret errors
         end)
        (fun m => ret (addE path errors (msgThrew m)))
  | None => ret errors
  end.

(** Lines 66-68. *)
Definition checkMinItems (path : string) (minItems : option Z) (data : value)
    (errors : list string) : list string :=
  match minItems with
  | Some n =>
      if (Z.of_nat (length (elementsOf data)) <? n)%Z
      then addE path errors (msgMinItems (length (elementsOf data)) n)
      else errors
  | None => errors
  end.

(** Lines 71-74; [new RegExp] may throw. *)
Definition checkPattern (path : string) (type pattern : option string)
    (data : value) (errors : list string) : M World (list string) :=
  match pattern with
  | Some p =>
      if typeIs type "string" && truthyStr p then
        match RegExp p with
        | Normal test =>
            if negb (test (stringOf data)) then ret (addE path errors (msgPattern p))
            else ret errors
        | Throw m => throw m
        end
      else ret errors
  | None => ret errors
  end.

(** Path of a property, line 45, and of an element, line 62. *)
Definition childPath (path k : string) : string :=
  if truthyStr path then path ++ "." ++ k else k.

Definition itemPath (path : string) (i : nat) : string :=
  path ++ "[" ++ showNat i ++ "]".

(** Pushing the results of the children, in order. *)
Definition pushAll (acc : Result) (rs : list Result) : Result :=
  fold_left (fun a r => mkResult (errors a ++ errors r) (warnings a ++ warnings r)) rs acc.

(** Lines 9-77.  The recursion descends into the schema; the default item
    schema [{}] imposes nothing, so its validation is the empty result
    ([validateAgainstSchema_emptySchema]). *)
Fixpoint validateAgainstSchema (data : value) (schema : Schema) (path : string)
    {struct schema} : M World Result :=
  match schema with
  | mkSchema type properties required items minItems pattern anyOf custom =>
    match anyOf with
    | Some alternatives =>
        results <- mapM (fun s => validateAgainstSchema data s path) alternatives ;;
        anyOfResult path results
    | None =>
        let t := typeOf data in
        match typeDiffers type t with
        | Some ty => ret (mkResult (addE path [] (msgType ty t)) [])
        | None =>
          r1 <- (if typeIs type "object" then
                   let req := match required with Some r => r | None => [] end in
                   let errors1 := checkRequired path req data [] in
                   children <-
                     mapM (fun kv =>
                             let childSchema :=
                               match properties with
                               | Some props =>
                                   assocWith
                                     (fun childSchema =>
                                        validateAgainstSchema (snd kv) childSchema
                                          (childPath path (fst kv)))
                                     (fst kv) props
                               | None => None
                               end in
                             match childSchema with
                             | Some validated => validated
                             | None => ret emptyResult
                             end)
                          (entriesOf data) ;;
                   let r := pushAll (mkResult errors1 []) children in
                   errors2 <- runCustom path custom data (errors r) ;;
                   ret (mkResult errors2 (warnings r))
                 else ret emptyResult) ;;
          r2 <- (if typeIs type "array" then
                   children <-
                     mapM (fun ix =>
                             match items with
                             | Some itemSchema =>
                                 validateAgainstSchema (snd ix) itemSchema
                                   (itemPath path (fst ix))
                             | None => ret emptyResult
                             end)
                          (indexed (elementsOf data)) ;;
                   let r := pushAll r1 children in
                   ret (mkResult (checkMinItems path minItems data (errors r)) (warnings r))
                 else ret r1) ;;
          errors3 <- checkPattern path type pattern data (errors r2) ;;
          ret (mkResult errors3 (warnings r2))
        end
    end
  end.

(** Lines 43-45: the validation of one entry of the data, skipped when
    [props[k]] is missing.  A key inherited by [props] from
    [Object.prototype] selects a function or the prototype object, none of
    which carries a schema field, so that validating against it yields the
    empty result as well. *)
Definition validateProperty (props : list (string * Schema)) (path : string)
    (kv : string * value) : M World Result :=
  match assoc (fst kv) props with
  | Some childSchema =>
      validateAgainstSchema (snd kv) childSchema (childPath path (fst kv))
  | None => ret emptyResult
  end.

(** Line 60: [schema.items || {}]. *)
Definition itemSchemaOf (items : option Schema) : Schema :=
  match items with
  | Some itemSchema => itemSchema
  | None => emptySchema
  end.

(** Line 62: the validation of one element. *)
Definition validateItem (items : option Schema) (path : string)
    (ix : nat * value) : M World Result :=
  validateAgainstSchema (snd ix) (itemSchemaOf items) (itemPath path (fst ix)).

(** [schema.properties || {}] and [schema.required || []]. *)
Definition propsOf (properties : option (list (string * Schema))) : list (string * Schema) :=
  match properties with Some props => props | None => [] end.

Definition reqOf (required : option (list string)) : list string :=
  match required with Some req => req | None => [] end.

(** The errors and the warnings of a list of results, in order. *)
Definition allErrors (rs : list Result) : list string := concat (map errors rs).
Definition allWarnings (rs : list Result) : list string := concat (map warnings rs).

(** The keys of [req] that [k in data] does not find. *)
Definition missingKeys (req : list string) (data : value) : list string :=
  filter (fun k => negb (hasProperty k (entriesOf data))) req.

(** The warnings of a failed anyOf: each alternative's errors under its
    index. *)
Definition alternativeWarnings (path : string) (results : list Result) : list string :=
  flat_map
    (fun ir => map (fun e => withPath path (msgAlternative (fst ir) e)) (errors (snd ir)))
    (indexed results).

(** The missing-key errors of lines 39-41 as a list. *)
Definition requiredErrors (path : string) (req : list string) (data : value) : list string :=
  map (fun k => withPath path (msgMissing k)) (missingKeys req data).

(** The length error of lines 66-68 as a list. *)
Definition minItemsErrors (path : string) (minItems : option Z) (count : nat) : list string :=
  match minItems with
  | Some n => if (Z.of_nat count <? n)%Z then [withPath path (msgMinItems count n)] else []
  | None => []
  end.

(** Both lists of a result begin with the path. *)
Definition underPath (path : string) (r : Result) : Prop :=
  Forall (fun m => prefix path m = true) (errors r ++ warnings r).

(** A hook that neither reads nor changes the world: its outcome is a
    function of the data alone. *)
Definition statelessHook (f : hook) : Prop := forall v, stateless (f v).

(** Every hook of the schema, at any depth, is stateless. *)
Fixpoint hooksStateless (schema : Schema) : Prop :=
  match schema with
  | mkSchema _ properties _ items _ _ anyOf custom =>
      match custom with Some f => statelessHook f | None => True end
      /\ match properties with
         | Some props =>
             (fix all (l : list (string * Schema)) : Prop :=
                match l with
                | [] => True
                | kc :: rest => hooksStateless (snd kc) /\ all rest
                end) props
         | None => True
         end
      /\ match items with Some itemSchema => hooksStateless itemSchema | None => True end
      /\ match anyOf with
         | Some alternatives =>
             (fix all (l : list Schema) : Prop :=
                match l with
                | [] => True
                | c :: rest => hooksStateless c /\ all rest
                end) alternatives
         | None => True
         end
  end.

(** ** The presenter and the orchestrator *)

(** What the presenter and the orchestrator do to the page, the console and
    the caller, in the order they do it. *)
Inductive event : Type :=
| BodyPrepend (cssText innerHTML : string)
| ConsoleErrorList (label : string) (lines : list string)
| ConsoleWarnList (label : string) (lines : list string)
| ConsoleErrorThrown (message : string)
| SetInnerHTML (id html : string)
| RenderCall (json : value).

(** The state of an orchestrator run: the world and the events so far. *)
Definition Page : Type := (World * list event)%type.

(** A computation on the world, run inside the orchestrator. *)
Definition liftW {A} (c : M World A) : M Page A :=
  fun p => let (r, w') := c (fst p) in (r, (w', snd p)).

Definition emit (e : event) : M Page unit :=
  fun p => (Normal tt, (fst p, snd p ++ [e])).

(** [document.getElementById(id)] is truthy: the element exists. *)
Variable getElementById : string -> World -> bool.

Definition elementExists (id : string) : M Page bool :=
  fun p => (Normal (getElementById id (fst p)), p).

(** A response of [fetch]: [res.ok], [res.status], and [res.json()]. *)
Record Response : Type := mkResponse {
  ok : bool;
  status : nat;
  json : M World value
}.

(** [fetch(url, { cache: 'no-cache' })]; a network failure throws. *)
Variable fetch : string -> M World Response.

Definition nl : string := String "010"%char EmptyString.

Definition panelCss : string :=
  "background:#fff7ed;color:#7c2d12;border:1px solid #fed7aa;padding:12px;margin:12px;border-radius:10px;font-family:system-ui,Segoe UI,Roboto,sans-serif".

(** [xs.map((x) => `<li>${x}</li>`).join('')]. *)
Definition listItems (xs : list string) : string :=
  String.concat "" (map (fun x => ("<li>" ++ x ++ "</li>")%string) xs).

(** Lines 83-89, the markup of the panel. *)
Definition panelHtml (fileName : string) (errors warnings : list string) : string :=
  nl ++ "      <strong>JSON validation: <code>" ++ fileName ++ "</code></strong>" ++ nl
  ++ "      "
  ++ (if negb (length errors =? 0)%nat
      then "<div style=" ++ dq ++ "margin-top:8px" ++ dq ++ "><b>Errors ("
           ++ showNat (length errors) ++ "):</b><ul>" ++ listItems errors ++ "</ul></div>"
      else "<div style=" ++ dq
           ++ "margin-top:8px;color:#166534;background:#dcfce7;border:1px solid #bbf7d0;padding:8px;border-radius:8px"
           ++ dq ++ ">No errors found.</div>")
  ++ nl ++ "      "
  ++ (if negb (length warnings =? 0)%nat
      then "<div style=" ++ dq ++ "margin-top:8px;color:#854d0e" ++ dq ++ "><b>Warnings ("
           ++ showNat (length warnings) ++ "):</b><ul>" ++ listItems warnings ++ "</ul></div>"
      else "").

(** Lines 79-93. *)
Definition showValidationPanel (fileName : string) (errors warnings : list string)
  : M Page unit :=
  _ <- emit (BodyPrepend panelCss (panelHtml fileName errors warnings)) ;;
  _ <- (if negb (length errors =? 0)%nat
        then emit (ConsoleErrorList ("[JSON VALIDATION] " ++ fileName) errors)
        else ret tt) ;;
  if negb (length warnings =? 0)%nat
  then emit (ConsoleWarnList ("[JSON VALIDATION] " ++ fileName) warnings)
  else ret tt.

Definition htmlValidationFailed (url : string) : string :=
  "<div class=" ++ dq ++ "bg-red-100 text-red-700 p-4 rounded" ++ dq
  ++ ">Validation failed for <b>" ++ url ++ "</b>. See details above.</div>".

Definition htmlLoadFailed (url message : string) : string :=
  "<div class=" ++ dq ++ "bg-red-100 text-red-700 p-4 rounded" ++ dq
  ++ ">Failed to load <b>" ++ url ++ "</b>: " ++ message ++ "</div>".

(** Lines 104-107 and 113-116: fill the fallback mount when an id was given
    and the element exists. *)
Definition showOnMount (mountOnErrorId : option string) (html : string) : M Page unit :=
  match mountOnErrorId with
  | Some id =>
      if truthyStr id then
        mount <- elementExists id ;;
        if (mount : bool) then emit (SetInnerHTML id html) else ret tt
      else ret tt
  | None => ret tt
  end.

(** Lines 95-118.  The options object is passed as its four fields. *)
Definition validateAndRender (url : string) (schema : Schema)
    (mountOnErrorId : option string) (render : value -> M World unit) : M Page unit :=
  tryCatch
    (res <- liftW (fetch url) ;;
     if negb (ok res) then throw (url ++ " HTTP " ++ showNat (status res))
     else
       json <- liftW (json res) ;;
       r <- liftW (validateAgainstSchema json schema (stripJsonSuffix url)) ;;
       _ <- showValidationPanel url (errors r) (warnings r) ;;
       if negb (length (errors r) =? 0)%nat then
         showOnMount mountOnErrorId (htmlValidationFailed url)
       else
         _ <- emit (RenderCall json) ;;
         liftW (render json))
    (fun message =>
       _ <- emit (ConsoleErrorThrown message) ;;
       showOnMount mountOnErrorId (htmlLoadFailed url message)).

(** The events of [showValidationPanel]. *)
Definition panelEvents (fileName : string) (errors warnings : list string) : list event :=
  [BodyPrepend panelCss (panelHtml fileName errors warnings)]
  ++ (if negb (length errors =? 0)%nat
      then [ConsoleErrorList ("[JSON VALIDATION] " ++ fileName) errors] else [])
  ++ (if negb (length warnings =? 0)%nat
      then [ConsoleWarnList ("[JSON VALIDATION] " ++ fileName) warnings] else []).

(** The events of [showOnMount] in a given world. *)
Definition mountEvents (mountOnErrorId : option string) (html : string) (w : World)
  : list event :=
  match mountOnErrorId with
  | Some id =>
      if truthyStr id && getElementById id w then [SetInnerHTML id html] else []
  | None => []
  end.


End Validator.

Arguments emptySchema {World}.
Arguments emptyResult : clear implicits.

(** ** Example engine, schemas and hooks *)

(** A regular-expression engine for the examples: the pattern [(] is
    malformed, and a pattern without metacharacters matches the strings
    that contain it. *)
Definition literalRegExp (p : string) : completion (string -> bool) :=
  if p =? "(" then Throw "Invalid regular expression: /(/: Unterminated group"
  else Normal (fun s => match index 0 p s with Some _ => true | None => false end).

(** [{ type: ty }]. *)
Definition typed {World} (ty : string) : Schema World :=
  mkSchema (Some ty) None None None None None None None.

(** [{ anyOf: [{ type: "string" }, { type: "number" }] }]. *)
Definition stringOrNumber {World} : Schema World :=
  mkSchema None None None None None None (Some [typed "string"; typed "number"]) None.

(** [{ type: "string", anyOf: [{ type: "number" }] }]. *)
Definition stringWithAnyOf {World} : Schema World :=
  mkSchema (Some "string") None None None None None (Some [typed "number"]) None.

(** [{ type: "object", required: keys }]. *)
Definition requiring {World} (keys : list string) : Schema World :=
  mkSchema (Some "object") None (Some keys) None None None None None.


(** [{ type: "object", custom: f }]. *)
Definition withCustom {World} (f : hook World) : Schema World :=
  mkSchema (Some "object") None None None None None None (Some f).

(** [{ type: "object", required: ["name"],
        properties: { name: { type: "string" },
                      tags: { type: "array", items: { type: "string" }, minItems: 1 } } }]. *)
Definition person {World} : Schema World :=
  mkSchema (Some "object")
    (Some [("name", typed "string");
           ("tags", mkSchema (Some "array") None None (Some (typed "string")) (Some 1%Z)
                             None None None)])
    (Some ["name"]) None None None None None.

(** The document [{ "name": 7, "tags": [] }]. *)
Definition badPerson : value :=
  VObj [("name", VNum 7%float); ("tags", VArr [])].

(** A hook with a closure counter, the world being the counter: it accepts
    the first document it sees and rejects every later one,
    [let n = 0; (d) => n++ ? "seen before" : ""]. *)
Definition onceOnly : hook nat :=
  fun _ n => (Normal (VStr (if (n =? 0)%nat then "" else "seen before")), S n).

(** [(d) => "name" in d ? "" : "no name"], a hook without state. *)
Definition wantsName : hook nat :=
  fun d n => (Normal (VStr (if hasOwn "name" (entriesOf d) then "" else "no name")), n).

(** [(d) => { throw new Error("boom"); }]. *)
Definition failing : hook nat :=
  fun _ n => (Throw "boom", n).

(** A server for the examples: [ok.json] holds [{"name": "x"}], [bad.json]
    holds [[1]], anything else is answered 404. *)
Definition demoFetch (url : string) : M nat (Response nat) :=
  if url =? "ok.json" then ret (mkResponse true 200 (ret (VObj [("name", VStr "x")])))
  else if url =? "bad.json" then ret (mkResponse true 200 (ret (VArr [VNum 1%float])))
  else ret (mkResponse false 404 (throw "Unexpected token < in JSON at position 0")).

(** A page whose only element is [mount]. *)
Definition demoPage (id : string) (_ : nat) : bool := id =? "mount".

(** A render callback that counts its calls in the world. *)
Definition countingRender (_ : value) : M nat unit := fun n => (Normal tt, S n).

(** ** Induction over schemas *)

Section SchemaInduction.

Variable World : Type.
Variable P : Schema World -> Prop.

Hypothesis step :
  forall ty props req its mi pat alts cust,
    (forall ps, props = Some ps -> Forall (fun kc => P (snd kc)) ps) ->
    (forall s, its = Some s -> P s) ->
    (forall l, alts = Some l -> Forall P l) ->
    P (mkSchema ty props req its mi pat alts cust).

Fixpoint Schema_nested_ind (schema : Schema World) {struct schema} : P schema :=
  match schema with
  | mkSchema ty props req its mi pat alts cust =>
      step ty req mi pat cust
        (match props as o
               return forall ps, o = Some ps -> Forall (fun kc => P (snd kc)) ps with
         | Some ps0 =>
             fun ps E =>
               match E in _ = o' return
                     match o' with Some q => Forall (fun kc => P (snd kc)) q | None => True end
               with
               | eq_refl =>
                   (fix all (l : list (string * Schema World))
                      : Forall (fun kc => P (snd kc)) l :=
                      match l with
                      | [] => Forall_nil _
                      | kc :: rest => Forall_cons kc (Schema_nested_ind (snd kc)) (all rest)
                      end) ps0
               end
         | None => fun ps E => match E in _ = o' return
                     match o' with Some q => Forall (fun kc => P (snd kc)) q | None => True end
               with eq_refl => I end
         end)
        (match its as o return forall s, o = Some s -> P s with
         | Some s0 =>
             fun s E =>
               match E in _ = o' return match o' with Some q => P q | None => True end with
               | eq_refl => Schema_nested_ind s0
               end
         | None => fun s E =>
               match E in _ = o' return match o' with Some q => P q | None => True end with
               | eq_refl => I
               end
         end)
        (match alts as o return forall l, o = Some l -> Forall P l with
         | Some l0 =>
             fun l E =>
               match E in _ = o' return match o' with Some q => Forall P q | None => True end with
               | eq_refl =>
                   (fix all (l : list (Schema World)) : Forall P l :=
                      match l with
                      | [] => Forall_nil _
                      | c :: rest => Forall_cons c (Schema_nested_ind c) (all rest)
                      end) l0
               end
         | None => fun l E =>
               match E in _ = o' return match o' with Some q => Forall P q | None => True end with
               | eq_refl => I
               end
         end)
  end.

End SchemaInduction.

(** ** Type tags *)

Lemma typeOf_object_inv (v : value) :
  typeOf v = "object" -> exists entries, v = VObj entries.
Proof.
  destruct v; cbn; intros E; try discriminate E.
  now exists entries.
Qed.

Lemma typeOf_array_inv (v : value) :
  typeOf v = "array" -> exists elements, v = VArr elements.
Proof.
  destruct v; cbn; intros E; try discriminate E.
  now exists elements.
Qed.

Lemma typeOf_string_inv (v : value) :
  typeOf v = "string" -> exists s, v = VStr s.
Proof.
  destruct v; cbn; intros E; try discriminate E.
  now exists s.
Qed.

(** C5, as the code has it.  [typeOf] maps [null] to the tag null and arrays
    to the tag array; every other value, [undefined] included, gets its
    [typeof] tag, so the tag of [undefined] is undefined (not null), and the
    tags are null, array, undefined, object, string, number, boolean and
    function. *)
Theorem typeOf_tags :
  typeOf VNull = "null"
  /\ (forall elements, typeOf (VArr elements) = "array")
  /\ typeOf VUndefined = "undefined"
  /\ (forall v, isNull v = false -> isArray v = false -> typeOf v = typeof v)
  /\ (forall v, typeOf v = "null" <-> v = VNull).
Proof.
  repeat split.
  - intros v Hn Ha. unfold typeOf. now rewrite Hn, Ha.
  - destruct v; cbn; intros E; try discriminate E; reflexivity.
  - now intros ->.
Qed.

(** C5 fails for an absent value: its tag is not null. *)
Lemma typeOf_undefined_not_null : typeOf VUndefined <> "null".
Proof. discriminate. Qed.

(** ** Lists built by pushing *)

Lemma entriesOf_VObj (entries : list (string * value)) :
  entriesOf (VObj entries) = entries.
Proof. reflexivity. Qed.

Lemma elementsOf_VArr (elements : list value) :
  elementsOf (VArr elements) = elements.
Proof. reflexivity. Qed.

Section Properties.

Variable World : Type.
Variable RegExp : string -> completion (string -> bool).

Local Abbreviation validate := (validateAgainstSchema (World := World) RegExp).

Lemma pushAll_eq (acc : Result) (rs : list Result) :
  pushAll acc rs
  = mkResult (errors acc ++ allErrors rs) (warnings acc ++ allWarnings rs).
Proof.
  unfold pushAll, allErrors, allWarnings.
  revert acc; induction rs as [|r rs IH]; intros [es ws]; cbn.
  - now rewrite !app_nil_r.
  - rewrite IH; cbn. now rewrite <- !app_assoc.
Qed.

Lemma checkRequired_eq (path : string) (req : list string) (data : value)
    (es : list string) :
  checkRequired path req data es
  = es ++ map (fun k => withPath path (msgMissing k)) (missingKeys req data).
Proof.
  unfold checkRequired, missingKeys.
  revert es; induction req as [|k req IH]; intros es; cbn.
  - now rewrite app_nil_r.
  - rewrite IH. destruct (hasProperty k (entriesOf data)); cbn.
    + reflexivity.
    + unfold addE. now rewrite <- app_assoc.
Qed.

Lemma anyOf_warnings_eq (path : string) (irs : list (nat * Result)) (acc : list string) :
  fold_left
    (fun ws ir =>
       fold_left (fun ws e => addW path ws (msgAlternative (fst ir) e)) (errors (snd ir)) ws)
    irs acc
  = acc ++ flat_map
             (fun ir => map (fun e => withPath path (msgAlternative (fst ir) e))
                            (errors (snd ir)))
             irs.
Proof.
  revert acc; induction irs as [|ir irs IH]; intros acc; cbn.
  - now rewrite app_nil_r.
  - rewrite IH.
    assert (H : forall (l : list string) a,
               fold_left (fun ws e => addW path ws (msgAlternative (fst ir) e)) l a
               = a ++ map (fun e => withPath path (msgAlternative (fst ir) e)) l).
    { induction l as [|e l IHl]; intros a; cbn.
      - now rewrite app_nil_r.
      - rewrite IHl. unfold addW. now rewrite <- app_assoc. }
    rewrite H. now rewrite <- app_assoc.
Qed.

(** ** The monad *)

Lemma mapM_ext {S A B} (f g : A -> M S B) (l : list A) (s : S) :
  (forall x s', In x l -> f x s' = g x s') -> mapM f l s = mapM g l s.
Proof.
  revert s; induction l as [|x l IH]; intros s H; cbn.
  - reflexivity.
  - unfold bind. rewrite (H x s (or_introl eq_refl)).
    destruct (g x s) as [[y|m] s1]; [|reflexivity].
    rewrite IH; [reflexivity|]. intros; apply H; now right.
Qed.

Lemma mapM_results {S A B} (Q : B -> Prop) (f : A -> M S B) (l : list A) :
  (forall x s y s', In x l -> f x s = (Normal y, s') -> Q y) ->
  forall s ys s', mapM f l s = (Normal ys, s') -> Forall Q ys.
Proof.
  induction l as [|x l IH]; intros H s ys s'; cbn.
  - intros E; injection E as <- _. constructor.
  - unfold bind. destruct (f x s) as [[y|m] s1] eqn:Ef; [|discriminate].
    destruct (mapM f l s1) as [[ys1|m] s2] eqn:El; [|discriminate].
    cbn. intros E; injection E as <- _.
    constructor.
    + eapply H; [now left | exact Ef].
    + eapply IH; [|exact El]. intros; eapply H; [right|]; eassumption.
Qed.

Lemma bind_ext {S A B} (c c' : M S A) (k k' : A -> M S B) (s : S) :
  c s = c' s -> (forall a s', k a s' = k' a s') -> bind c k s = bind c' k' s.
Proof.
  intros Hc Hk. unfold bind. rewrite Hc.
  destruct (c' s) as [[a|m] s1]; [apply Hk | reflexivity].
Qed.

Lemma assocWith_assoc {A B} (f : A -> B) (k : string) (l : list (string * A)) :
  assocWith f k l = option_map f (assoc k l).
Proof.
  induction l as [|[k' a] l IH]; cbn; [reflexivity|].
  destruct (k =? k'); [reflexivity | exact IH].
Qed.

(** ** The matcher, rule by rule *)

(** Validating against [{}] imposes nothing. *)
Lemma validateAgainstSchema_emptySchema (data : value) (path : string) (w : World) :
  validate data emptySchema path w = (Normal emptyResult, w).
Proof. reflexivity. Qed.

(** Rule 1, lines 17-28. *)
Lemma validate_anyOf (data : value) (schema : Schema World) (path : string)
    (alternatives : list (Schema World)) (w : World) :
  anyOf schema = Some alternatives ->
  validate data schema path w
  = (results <- mapM (fun s => validate data s path) alternatives ;;
     anyOfResult path results) w.
Proof. destruct schema; cbn; intros ->; reflexivity. Qed.

(** Rule 2, lines 30-34. *)
Lemma validate_typeDiffers (data : value) (schema : Schema World) (path ty : string)
    (w : World) :
  anyOf schema = None ->
  typeDiffers (type schema) (typeOf data) = Some ty ->
  validate data schema path w
  = (Normal (mkResult [withPath path (msgType ty (typeOf data))] []), w).
Proof. destruct schema; cbn; intros -> ->; reflexivity. Qed.

(** Rules 3-5, lines 36-76, once the type gate is passed. *)
Lemma validate_checks (data : value) (schema : Schema World) (path : string) (w : World) :
  anyOf schema = None ->
  typeDiffers (type schema) (typeOf data) = None ->
  validate data schema path w
  = (r1 <- (if typeIs (type schema) "object" then
              let errors1 := checkRequired path (reqOf (required schema)) data [] in
              children <- mapM (validateProperty RegExp (propsOf (properties schema)) path)
                               (entriesOf data) ;;
              let r := pushAll (mkResult errors1 []) children in
              errors2 <- runCustom path (custom schema) data (errors r) ;;
              ret (mkResult errors2 (warnings r))
            else ret (emptyResult)) ;;
     r2 <- (if typeIs (type schema) "array" then
              children <- mapM (validateItem RegExp (items schema) path)
                               (indexed (elementsOf data)) ;;
              let r := pushAll r1 children in
              ret (mkResult (checkMinItems path (minItems schema) data (errors r))
                            (warnings r))
            else ret r1) ;;
     errors3 <- checkPattern RegExp path (type schema) (pattern schema) data (errors r2) ;;
     ret (mkResult errors3 (warnings r2))) w.
Proof.
  destruct schema as [ty props req its mi pat alts cust]; cbn.
  intros -> ->.
  apply bind_ext.
  - destruct (typeIs ty "object"); [|reflexivity].
    apply bind_ext; [|reflexivity].
    apply mapM_ext. intros [k v] s' _.
    unfold validateProperty; cbn.
    destruct props as [ps|]; cbn; [|reflexivity].
    rewrite assocWith_assoc. now destruct (assoc k ps).
  - intros r1 s1. apply bind_ext; [|reflexivity].
    destruct (typeIs ty "array"); [|reflexivity].
    apply bind_ext; [|reflexivity].
    apply mapM_ext. intros [i v] s' _.
    unfold validateItem; cbn.
    destruct its; reflexivity.
Qed.

(** ** Rule 1: anyOf *)

Lemma existsb_noErrors_false (results : list Result) :
  (forall r, In r results -> errors r <> []) -> existsb noErrors results = false.
Proof.
  intros H. apply not_true_is_false. intros E.
  apply existsb_exists in E as (r & Hin & Hr).
  apply (H r Hin). unfold noErrors in Hr.
  apply Nat.eqb_eq in Hr. now apply length_zero_iff_nil.
Qed.

Lemma noErrors_true (r : Result) : errors r = [] -> noErrors r = true.
Proof. unfold noErrors. now intros ->. Qed.

Lemma find_first_noErrors (pre post : list Result) (r : Result) :
  (forall x, In x pre -> errors x <> []) -> errors r = [] ->
  find noErrors (pre ++ r :: post) = Some r.
Proof.
  intros Hpre Hr. induction pre as [|x pre IH]; cbn.
  - now rewrite (noErrors_true r Hr).
  - destruct (noErrors x) eqn:Ex.
    + exfalso. apply (Hpre x (or_introl eq_refl)).
      unfold noErrors in Ex. apply Nat.eqb_eq in Ex. now apply length_zero_iff_nil.
    + apply IH. intros y Hy. apply Hpre. now right.
Qed.

(** C2. When the alternatives of [anyOf] have been validated (each with the
    same data and path) and none of their results is free of errors, the
    call returns exactly one error, the "must match one of the allowed
    shapes" message, and as warnings every error of every alternative under
    that alternative's index.  The result mentions no other field of the
    schema and the world is the one the alternatives left: the type, object,
    array and string rules are not run for this node. *)
Theorem anyOf_none_passes (data : value) (schema : Schema World) (path : string)
    (alternatives : list (Schema World)) (results : list Result) (w w' : World) :
  anyOf schema = Some alternatives ->
  mapM (fun s => validate data s path) alternatives w = (Normal results, w') ->
  (forall r, In r results -> errors r <> []) ->
  validate data schema path w
  = (Normal (mkResult [withPath path msgAnyOf] (alternativeWarnings path results)), w').
Proof.
  intros Hany Hmap Hnone.
  rewrite (validate_anyOf data schema path w Hany).
  unfold bind. rewrite Hmap.
  unfold anyOfResult. rewrite (existsb_noErrors_false results Hnone). cbn.
  unfold ret. do 2 f_equal.
  unfold alternativeWarnings, flat_map.
  rewrite anyOf_warnings_eq. reflexivity.
Qed.

(** C6. When the alternatives of [anyOf] have been validated and one of the
    results has no errors, the call returns no errors, and its warnings are
    those of the first such result in list order; the errors and warnings
    of every other alternative are dropped. *)
Theorem anyOf_first_passing (data : value) (schema : Schema World) (path : string)
    (alternatives : list (Schema World)) (pre post : list Result) (r : Result)
    (w w' : World) :
  anyOf schema = Some alternatives ->
  mapM (fun s => validate data s path) alternatives w = (Normal (pre ++ r :: post), w') ->
  (forall x, In x pre -> errors x <> []) ->
  errors r = [] ->
  validate data schema path w = (Normal (mkResult [] (warnings r)), w').
Proof.
  intros Hany Hmap Hpre Hr.
  rewrite (validate_anyOf data schema path w Hany).
  unfold bind. rewrite Hmap.
  unfold anyOfResult.
  assert (Hok : existsb noErrors (pre ++ r :: post) = true).
  { apply existsb_exists. exists r. split.
    - apply in_or_app. right. now left.
    - now apply noErrors_true. }
  rewrite Hok. cbn [negb].
  rewrite (find_first_noErrors pre post r Hpre Hr). reflexivity.
Qed.

(** ** Rule 2: the type gate *)

Lemma typeDiffers_Some (type : option string) (ty t : string) :
  type = Some ty -> ty <> "" -> ty <> t -> typeDiffers type t = Some ty.
Proof.
  intros -> Hne Hdiff. unfold typeDiffers, truthyStr.
  apply String.eqb_neq in Hne, Hdiff. now rewrite Hne, Hdiff.
Qed.

(** C3, as the code has it.  For a schema without [anyOf] whose [type] is a
    non-empty tag different from the type tag of the data, the call returns
    exactly one error, the type-mismatch message, and no warnings; the
    world is untouched and the result is the same whatever [properties],
    [required], [items], [minItems], [pattern] and [custom] hold, so no
    further check, recursion or hook runs. *)
Theorem type_mismatch_stops (data : value) (schema : Schema World) (path ty : string)
    (w : World) :
  anyOf schema = None ->
  type schema = Some ty ->
  ty <> "" ->
  ty <> typeOf data ->
  validate data schema path w
  = (Normal (mkResult [withPath path (msgType ty (typeOf data))] []), w).
Proof.
  intros Hany Hty Hne Hdiff.
  apply validate_typeDiffers; [exact Hany|].
  now apply typeDiffers_Some.
Qed.

(** ** Rule 3: objects *)

Lemma typeDiffers_same (ty : string) (data : value) :
  typeOf data = ty -> typeDiffers (Some ty) (typeOf data) = None.
Proof.
  intros ->. unfold typeDiffers. rewrite String.eqb_refl.
  now rewrite andb_false_r.
Qed.

Lemma checkPattern_not_string (path ty : string) (pat : option string) (data : value)
    (es : list string) (w : World) :
  (ty =? "string") = false ->
  checkPattern RegExp path (Some ty) pat data es w = (Normal es, w).
Proof.
  intros H. unfold checkPattern, typeIs. rewrite H.
  destruct pat; reflexivity.
Qed.

(** The object rule when the children have been validated: what is left is
    the hook. *)
Lemma validate_object (schema : Schema World) (path : string)
    (entries : list (string * value)) (children : list Result) (w w1 : World) :
  anyOf schema = None ->
  type schema = Some "object" ->
  mapM (validateProperty RegExp (propsOf (properties schema)) path) entries w
  = (Normal children, w1) ->
  validate (VObj entries) schema path w
  = (errors2 <- runCustom path (custom schema) (VObj entries)
                  (requiredErrors path (reqOf (required schema)) (VObj entries)
                   ++ allErrors children) ;;
     ret (mkResult errors2 (allWarnings children))) w1.
Proof.
  intros Hany Hty Hmap.
  rewrite validate_checks;
    [| exact Hany | rewrite Hty; now apply typeDiffers_same].
  rewrite Hty. cbn [typeIs]. cbn [String.eqb Ascii.eqb Bool.eqb].
  rewrite entriesOf_VObj.
  unfold bind at 1. unfold bind at 1. rewrite Hmap.
  rewrite pushAll_eq. cbn [errors warnings app].
  rewrite checkRequired_eq. cbn [app]. fold (requiredErrors path (reqOf (required schema)) (VObj entries)).
  unfold bind.
  destruct (runCustom path (custom schema) (VObj entries) _ w1) as [[es|m] w2];
    [|reflexivity].
  unfold ret. now rewrite checkPattern_not_string.
Qed.


(** For [required: ["a", "b"]] and the data [{}] exactly the two
    missing-key errors come back, whatever [properties] holds. *)
Lemma required_a_b_missing (props : option (list (string * Schema World)))
    (path : string) (w : World) :
  validate (VObj []) (mkSchema (Some "object") props (Some ["a"; "b"]) None None None None None)
           path w
  = (Normal (mkResult [withPath path (msgMissing "a"); withPath path (msgMissing "b")] []), w).
Proof. reflexivity. Qed.

(** C7, at the input where the code departs from it.  The key [toString] is
    required and the data [{}] has no such key of its own, yet no
    missing-key error is returned: [in] also finds what the object inherits
    from [Object.prototype]. *)
Theorem required_inherited_key_not_reported (path : string) (w : World) :
  hasOwn "toString" (entriesOf (VObj [])) = false
  /\ validate (VObj []) (requiring ["toString"]) path w = (Normal (mkResult [] []), w).
Proof. split; reflexivity. Qed.

(** ** Rule 4: arrays *)


(** ** Every message carries the path *)

Lemma prefix_app (s t : string) : prefix s (s ++ t) = true.
Proof.
  induction s as [|c s IH]; cbn.
  - now destruct t.
  - destruct (ascii_dec c c) as [_|N]; [exact IH | now elim N].
Qed.

Lemma prefix_trans (a b c : string) :
  prefix a b = true -> prefix b c = true -> prefix a c = true.
Proof.
  revert b c; induction a as [|x a IH]; intros b c Hab Hbc.
  - now destruct c.
  - destruct b as [|y b]; [discriminate Hab|].
    destruct c as [|z c]; [discriminate Hbc|].
    cbn in *.
    destruct (ascii_dec x y) as [->|]; [|discriminate Hab].
    destruct (ascii_dec y z) as [->|]; [|discriminate Hbc].
    now apply IH with b.
Qed.

Lemma prefix_withPath (path msg : string) : prefix path (withPath path msg) = true.
Proof.
  unfold withPath, truthyStr.
  destruct (String.eqb_spec path "") as [->|_]; cbn [negb].
  - now destruct msg.
  - apply prefix_app.
Qed.

Lemma prefix_childPath (path k : string) : prefix path (childPath path k) = true.
Proof.
  unfold childPath, truthyStr.
  destruct (String.eqb_spec path "") as [->|_]; cbn [negb].
  - now destruct k.
  - apply prefix_app.
Qed.

Lemma prefix_itemPath (path : string) (i : nat) : prefix path (itemPath path i) = true.
Proof. apply prefix_app. Qed.

Lemma underPath_split (path : string) (es ws : list string) :
  underPath path (mkResult es ws)
  <-> Forall (fun m => prefix path m = true) es
      /\ Forall (fun m => prefix path m = true) ws.
Proof. unfold underPath; cbn. apply Forall_app. Qed.

Lemma underPath_deeper (path path' : string) (r : Result) :
  prefix path path' = true -> underPath path' r -> underPath path r.
Proof.
  intros Hp. unfold underPath. apply Forall_impl.
  intros m Hm. now apply prefix_trans with path'.
Qed.

Lemma underPath_all (path : string) (rs : list Result) :
  Forall (underPath path) rs ->
  Forall (fun m => prefix path m = true) (allErrors rs)
  /\ Forall (fun m => prefix path m = true) (allWarnings rs).
Proof.
  unfold allErrors, allWarnings.
  induction 1 as [|r rs Hr _ [IHe IHw]]; cbn.
  - split; constructor.
  - destruct r as [es ws]. apply underPath_split in Hr as [He Hw]. cbn.
    split; apply Forall_app; split; assumption.
Qed.

Lemma runCustom_underPath (path : string) (c : option (hook World)) (data : value)
    (es es' : list string) (w w' : World) :
  Forall (fun m => prefix path m = true) es ->
  runCustom path c data es w = (Normal es', w') ->
  Forall (fun m => prefix path m = true) es'.
Proof.
  intros Hes. unfold runCustom.
  assert (Hadd : forall msg, Forall (fun m => prefix path m = true) (addE path es msg)).
  { intros msg. unfold addE. apply Forall_app. split; [exact Hes|].
    constructor; [apply prefix_withPath | constructor]. }
  destruct c as [f|]; unfold tryCatch, bind, ret.
  - destruct (f data w) as [[v|m] w1].
    + destruct v; try (intros E; injection E as <- _; exact Hes).
      destruct (truthyStr s); intros E; injection E as <- _; [apply Hadd | exact Hes].
    + intros E; injection E as <- _. apply Hadd.
  - intros E; injection E as <- _. exact Hes.
Qed.

Lemma checkPattern_underPath (path : string) (ty pat : option string) (data : value)
    (es es' : list string) (w w' : World) :
  Forall (fun m => prefix path m = true) es ->
  checkPattern RegExp path ty pat data es w = (Normal es', w') ->
  Forall (fun m => prefix path m = true) es'.
Proof.
  intros Hes. unfold checkPattern, ret, throw.
  destruct pat as [p|]; [|intros E; injection E as <- _; exact Hes].
  destruct (typeIs ty "string" && truthyStr p);
    [|intros E; injection E as <- _; exact Hes].
  destruct (RegExp p) as [test|m]; [|discriminate].
  destruct (negb (test (stringOf data))); intros E; injection E as <- _; [|exact Hes].
  unfold addE. apply Forall_app. split; [exact Hes|].
  constructor; [apply prefix_withPath | constructor].
Qed.

Lemma checkMinItems_underPath (path : string) (mi : option Z) (data : value)
    (es : list string) :
  Forall (fun m => prefix path m = true) es ->
  Forall (fun m => prefix path m = true) (checkMinItems path mi data es).
Proof.
  intros Hes. unfold checkMinItems.
  destruct mi as [n|]; [|exact Hes].
  destruct (Z.of_nat (length (elementsOf data)) <? n)%Z; [|exact Hes].
  unfold addE. apply Forall_app. split; [exact Hes|].
  constructor; [apply prefix_withPath | constructor].
Qed.

Lemma anyOfResult_underPath (path : string) (results : list Result) (r : Result)
    (w w' : World) :
  Forall (underPath path) results ->
  anyOfResult path results w = (Normal r, w') ->
  underPath path r.
Proof.
  intros Hrs. unfold anyOfResult.
  destruct (existsb noErrors results); cbn [negb].
  - destruct (find noErrors results) as [firstOK|] eqn:Ef; [|discriminate].
    unfold ret. intros E; injection E as <- _.
    apply find_some in Ef as [Hin _].
    rewrite Forall_forall in Hrs. specialize (Hrs _ Hin).
    destruct firstOK as [es ws]. apply underPath_split in Hrs as [_ Hw].
    apply underPath_split. split; [constructor | exact Hw].
  - unfold ret. intros E; injection E as <- _.
    apply underPath_split. split.
    + unfold addE; cbn. constructor; [apply prefix_withPath | constructor].
    + rewrite anyOf_warnings_eq. cbn [app].
      apply Forall_forall. intros m Hm.
      apply in_flat_map in Hm as (ir & _ & Hm).
      apply in_map_iff in Hm as (e & <- & _).
      apply prefix_withPath.
Qed.

Lemma assoc_In {A} (k : string) (l : list (string * A)) (a : A) :
  assoc k l = Some a -> exists k', In (k', a) l.
Proof.
  induction l as [|[k' b] l IH]; cbn; [discriminate|].
  destruct (k =? k').
  - intros E; injection E as ->. exists k'. now left.
  - intros E. destruct (IH E) as [k'' H]. exists k''. now right.
Qed.

(** C10. Every string of the errors and of the warnings that a call returns
    begins with the path the call was given (for every path, the non-empty
    ones included): the messages added at the node are prefixed with it,
    and those of the recursive calls carry a path that extends it. *)
Theorem path_prefix_invariant (data : value) (schema : Schema World) (path : string)
    (w w' : World) (r : Result) :
  validate data schema path w = (Normal r, w') ->
  Forall (fun m => prefix path m = true) (errors r ++ warnings r).
Proof.
  change (validate data schema path w = (Normal r, w') -> underPath path r).
  revert data path w w' r.
  induction schema as [ty props req its mi pat alts cust IHprops IHits IHalts]
    using Schema_nested_ind.
  intros data path w w' r.
  destruct alts as [alternatives|].
  - (* anyOf *)
    rewrite validate_anyOf with (alternatives := alternatives) by reflexivity.
    unfold bind.
    destruct (mapM _ alternatives w) as [[results|m] w1] eqn:Hmap; [|discriminate].
    apply anyOfResult_underPath.
    eapply mapM_results; [|exact Hmap].
    intros s s0 y s1 Hin Hs.
    specialize (IHalts _ eq_refl). rewrite Forall_forall in IHalts.
    exact (IHalts s Hin _ _ _ _ _ Hs).
  - destruct (typeDiffers ty (typeOf data)) as [ty'|] eqn:Hdiff.
    + (* type mismatch *)
      rewrite validate_typeDiffers with (ty := ty'); [| reflexivity | exact Hdiff].
      intros E; injection E as <- _.
      apply underPath_split. split; [|constructor].
      constructor; [apply prefix_withPath | constructor].
    + rewrite validate_checks; [| reflexivity | exact Hdiff].
      cbn [type properties required items minItems pattern custom].
      unfold bind at 1.
      (* the object rule *)
      assert (H1 : forall r1 w1,
                 (if typeIs ty "object"
                  then
                    let errors1 := checkRequired path (reqOf req) data [] in
                    children <- mapM (validateProperty RegExp (propsOf props) path)
                                     (entriesOf data) ;;
                    let r0 := pushAll (mkResult errors1 []) children in
                    errors2 <- runCustom path cust data (errors r0) ;;
                    ret (mkResult errors2 (warnings r0))
                  else ret emptyResult) w = (Normal r1, w1) -> underPath path r1).
      { intros r1 w1. destruct (typeIs ty "object").
        - cbv zeta. unfold bind at 1.
          destruct (mapM _ (entriesOf data) w) as [[children|m] w2] eqn:Hmap; [|discriminate].
          assert (Hch : Forall (underPath path) children).
          { eapply mapM_results; [|exact Hmap].
            intros [k v] s0 y s1 _. unfold validateProperty; cbn [fst snd].
            destruct (assoc k (propsOf props)) as [childSchema|] eqn:Hk.
            - intros Hs. apply assoc_In in Hk as [k' Hin].
              destruct props as [ps|]; [|now cbn in Hin].
              specialize (IHprops _ eq_refl). rewrite Forall_forall in IHprops.
              specialize (IHprops _ Hin _ _ _ _ _ Hs).
              eapply underPath_deeper; [apply prefix_childPath | exact IHprops].
            - unfold ret. intros E; injection E as <- _. constructor. }
          apply underPath_all in Hch as [He Hw].
          rewrite pushAll_eq. cbn [errors warnings app].
          unfold bind.
          destruct (runCustom path cust data _ w2) as [[es2|m] w3] eqn:Hc; [|discriminate].
          unfold ret. intros E; injection E as <- _.
          apply underPath_split. split; [|exact Hw].
          eapply runCustom_underPath; [|exact Hc].
          apply Forall_app. split; [|exact He].
          rewrite checkRequired_eq. cbn [app].
          apply Forall_forall. intros m Hm.
          apply in_map_iff in Hm as (k & <- & _). apply prefix_withPath.
        - unfold ret. intros E; injection E as <- _. constructor. }
      match goal with
      | |- context [match ?c w with _ => _ end] => destruct (c w) as [[r1|m] w1] eqn:Hr1
      end; [|discriminate].
      specialize (H1 _ _ eq_refl).
      unfold bind at 1.
      (* the array rule *)
      assert (H2 : forall r2 w2,
                 (if typeIs ty "array"
                  then
                    children <- mapM (validateItem RegExp its path)
                                     (indexed (elementsOf data)) ;;
                    let r0 := pushAll r1 children in
                    ret (mkResult (checkMinItems path mi data (errors r0)) (warnings r0))
                  else ret r1) w1 = (Normal r2, w2) -> underPath path r2).
      { intros r2 w2. destruct (typeIs ty "array").
        - unfold bind at 1.
          destruct (mapM _ (indexed (elementsOf data)) w1) as [[children|m] w3] eqn:Hmap;
            [|discriminate].
          assert (Hch : Forall (underPath path) children).
          { eapply mapM_results; [|exact Hmap].
            intros [i v] s0 y s1 _. unfold validateItem; cbn [fst snd].
            destruct its as [itemSchema|]; cbn [itemSchemaOf].
            - intros Hs. specialize (IHits _ eq_refl _ _ _ _ _ Hs).
              eapply underPath_deeper; [apply prefix_itemPath | exact IHits].
            - rewrite validateAgainstSchema_emptySchema.
              intros E; injection E as <- _. constructor. }
          apply underPath_all in Hch as [He Hw].
          cbv zeta. rewrite pushAll_eq. cbn [errors warnings].
          unfold ret. intros E; injection E as <- _.
          destruct r1 as [es1 ws1]. apply underPath_split in H1 as [He1 Hw1].
          cbn [errors warnings].
          apply underPath_split. split.
          + apply checkMinItems_underPath. apply Forall_app. now split.
          + apply Forall_app. now split.
        - unfold ret. intros E; injection E as <- _. exact H1. }
      match goal with
      | |- context [match ?c w1 with _ => _ end] => destruct (c w1) as [[r2|m] w2] eqn:Hr2
      end; [|discriminate].
      specialize (H2 _ _ eq_refl).
      (* the string rule *)
      unfold bind.
      destruct (checkPattern RegExp path ty pat data (errors r2) w2) as [[es3|m] w3] eqn:Hp;
        [|discriminate].
      unfold ret. intros E; injection E as <- _.
      destruct r2 as [es2 ws2]. apply underPath_split in H2 as [He2 Hw2].
      apply underPath_split. split; [|exact Hw2].
      eapply checkPattern_underPath; [|exact Hp]. exact He2.
Qed.

(** ** Statelessness *)

Lemma stateless_ret {S A} (a : A) : stateless (ret (S := S) a).
Proof. now exists (Normal a). Qed.

Lemma stateless_throw {S A} (m : string) : stateless (throw (S := S) (A := A) m).
Proof. now exists (Throw m). Qed.

Lemma stateless_bind {S A B} (c : M S A) (k : A -> M S B) :
  stateless c -> (forall a, stateless (k a)) -> stateless (bind c k).
Proof.
  intros [[a|m] Hc] Hk; unfold bind.
  - destruct (Hk a) as [r Hr]. exists r. intros s. now rewrite Hc, Hr.
  - exists (Throw m). intros s. now rewrite Hc.
Qed.

Lemma stateless_tryCatch {S A} (c : M S A) (handler : string -> M S A) :
  stateless c -> (forall m, stateless (handler m)) -> stateless (tryCatch c handler).
Proof.
  intros [[a|m] Hc] Hh; unfold tryCatch.
  - exists (Normal a). intros s. now rewrite Hc.
  - destruct (Hh m) as [r Hr]. exists r. intros s. now rewrite Hc, Hr.
Qed.

Lemma stateless_ext {S A} (c c' : M S A) :
  (forall s, c s = c' s) -> stateless c' -> stateless c.
Proof. intros E [r Hr]. exists r. intros s. now rewrite E. Qed.

Lemma stateless_mapM {S A B} (f : A -> M S B) (l : list A) :
  (forall x, In x l -> stateless (f x)) -> stateless (mapM f l).
Proof.
  induction l as [|x l IH]; intros H; cbn.
  - apply stateless_ret.
  - apply stateless_bind; [apply H; now left|]. intros y.
    apply stateless_bind; [apply IH; intros; apply H; now right|].
    intros ys. apply stateless_ret.
Qed.

Lemma stateless_if {S A} (b : bool) (c c' : M S A) :
  stateless c -> stateless c' -> stateless (if b then c else c').
Proof. now destruct b. Qed.

Lemma stateless_runCustom (path : string) (c : option (hook World)) (data : value)
    (es : list string) :
  match c with Some f => statelessHook f | None => True end ->
  stateless (runCustom path c data es).
Proof.
  destruct c as [f|]; intros Hf; unfold runCustom; [|apply stateless_ret].
  apply stateless_tryCatch; [|intros; apply stateless_ret].
  apply stateless_bind; [apply Hf|].
  intros [| | | |s| | |]; try apply stateless_ret.
  apply stateless_if; apply stateless_ret.
Qed.

Lemma stateless_checkPattern (path : string) (ty pat : option string) (data : value)
    (es : list string) :
  stateless (checkPattern (World := World) RegExp path ty pat data es).
Proof.
  unfold checkPattern. destruct pat as [p|]; [|apply stateless_ret].
  apply stateless_if; [|apply stateless_ret].
  destruct (RegExp p); [|apply stateless_throw].
  apply stateless_if; apply stateless_ret.
Qed.

Lemma stateless_anyOfResult (path : string) (results : list Result) :
  stateless (anyOfResult (World := World) path results).
Proof.
  unfold anyOfResult. apply stateless_if; [apply stateless_ret|].
  destruct (find noErrors results); [apply stateless_ret | apply stateless_throw].
Qed.

Lemma hooksStateless_validate (schema : Schema World) :
  hooksStateless schema -> forall data path, stateless (validate data schema path).
Proof.
  induction schema as [ty props req its mi pat alts cust IHprops IHits IHalts]
    using Schema_nested_ind.
  intros (Hcust & Hprops & Hits & Halts) data path.
  destruct alts as [alternatives|].
  - apply stateless_ext
      with (c' := results <- mapM (fun s => validate data s path) alternatives ;;
                  anyOfResult path results).
    { intros w. now apply validate_anyOf. }
    apply stateless_bind; [|intros; apply stateless_anyOfResult].
    apply stateless_mapM. intros s Hin.
    specialize (IHalts _ eq_refl).
    induction alternatives as [|c l IHl]; [contradiction|].
    destruct Halts as [Hc Hl]. inversion IHalts as [|? ? Pc Pl]; subst.
    destruct Hin as [->|Hin]; [now apply Pc | now apply IHl].
  - destruct (typeDiffers ty (typeOf data)) as [ty'|] eqn:Hdiff.
    + eexists. intros w.
      now rewrite validate_typeDiffers with (ty := ty').
    + eapply stateless_ext.
      { intros w. rewrite validate_checks; [reflexivity | reflexivity | exact Hdiff]. }
      cbn [type properties required items minItems pattern custom].
      apply stateless_bind.
      { apply stateless_if; [|apply stateless_ret]. cbv zeta.
        apply stateless_bind.
        - apply stateless_mapM. intros [k v] _. unfold validateProperty; cbn [fst snd].
          destruct (assoc k (propsOf props)) as [childSchema|] eqn:Hk;
            [|apply stateless_ret].
          apply assoc_In in Hk as [k' Hin].
          destruct props as [ps|]; [|now cbn in Hin]. cbn [propsOf] in Hin.
          specialize (IHprops _ eq_refl).
          induction ps as [|kc l IHl]; [contradiction|].
          destruct Hprops as [Hc Hl]. inversion IHprops as [|? ? Pc Pl]; subst.
          destruct Hin as [->|Hin]; [now apply Pc | now apply IHl].
        - intros children. apply stateless_bind; [|intros; apply stateless_ret].
          now apply stateless_runCustom. }
      intros r1. apply stateless_bind.
      { apply stateless_if; [|apply stateless_ret].
        apply stateless_bind; [|intros; apply stateless_ret].
        apply stateless_mapM. intros [i v] _. unfold validateItem; cbn [fst snd].
        destruct its as [itemSchema|]; cbn [itemSchemaOf].
        - now apply (IHits _ eq_refl).
        - eexists. intros w. apply validateAgainstSchema_emptySchema. }
      intros r2. apply stateless_bind; [|intros; apply stateless_ret].
      apply stateless_checkPattern.
Qed.

(** C9, as the code has it.  The matcher keeps no state of its own: when
    every custom hook of the schema is stateless, a call neither depends on
    the world nor changes it, so two calls with the same data, schema and
    path, made in whatever states of the world, end in the same way, with
    identical errors and warnings. *)
Theorem stateless_hooks_deterministic (data : value) (schema : Schema World)
    (path : string) (w1 w2 : World) :
  hooksStateless schema ->
  fst (validate data schema path w1) = fst (validate data schema path w2)
  /\ snd (validate data schema path w1) = w1.
Proof.
  intros H. destruct (hooksStateless_validate schema H data path) as [r Hr].
  now rewrite !Hr.
Qed.

(** ** The orchestrator *)

Variable getElementById : string -> World -> bool.
Variable fetch : string -> M World (Response World).


Lemma showValidationPanel_run (fileName : string) (es ws : list string) (w : World)
    (trace : list event) :
  showValidationPanel fileName es ws (w, trace)
  = (Normal tt, (w, trace ++ panelEvents fileName es ws)).
Proof.
  unfold showValidationPanel, panelEvents, bind, emit, ret; cbn [fst snd].
  destruct (negb (length es =? 0)%nat), (negb (length ws =? 0)%nat);
    cbn [fst snd app]; rewrite <- ?app_assoc; reflexivity.
Qed.

Lemma showOnMount_run (mountOnErrorId : option string) (html : string) (w : World)
    (trace : list event) :
  showOnMount getElementById mountOnErrorId html (w, trace)
  = (Normal tt, (w, trace ++ mountEvents getElementById mountOnErrorId html w)).
Proof.
  unfold showOnMount, mountEvents, bind, elementExists, emit, ret.
  destruct mountOnErrorId as [id|]; [|now rewrite app_nil_r].
  destruct (truthyStr id); cbn [andb fst snd]; [|now rewrite app_nil_r].
  destruct (getElementById id w); [reflexivity | now rewrite app_nil_r].
Qed.




End Properties.

(** ** The theorems at concrete inputs *)

(** [anyOf: [string, number]] against [true]: one error, two warnings. *)
Lemma anyOf_none_passes_witness :
  validateAgainstSchema literalRegExp (VBool true) (stringOrNumber (World := nat)) "" 0
  = (Normal (mkResult [msgAnyOf]
                      [msgAlternative 0 (msgType "string" "boolean");
                       msgAlternative 1 (msgType "number" "boolean")]), 0).
Proof.
  apply (@anyOf_none_passes nat literalRegExp (VBool true) stringOrNumber ""
           [typed "string"; typed "number"]
           [mkResult [msgType "string" "boolean"] [];
            mkResult [msgType "number" "boolean"] []]
           0 0).
  - reflexivity.
  - reflexivity.
  - intros r [<-|[<-|[]]]; discriminate.
Defined.

(** [anyOf: [string, number]] against a number: the first alternative
    fails, the second passes, nothing is reported. *)
Lemma anyOf_first_passing_witness :
  validateAgainstSchema literalRegExp (VNum 5%float) (stringOrNumber (World := nat)) "" 0
  = (Normal (mkResult [] []), 0).
Proof.
  apply (@anyOf_first_passing nat literalRegExp (VNum 5%float) stringOrNumber ""
           [typed "string"; typed "number"]
           [mkResult [msgType "string" "number"] []] [] (mkResult [] [])
           0 0).
  - reflexivity.
  - reflexivity.
  - intros x [<-|[]]. discriminate.
  - reflexivity.
Defined.

(** [anyOf: [string, number]] against ["ok"]: no errors, no warnings. *)
Lemma stringOrNumber_accepts_ok :
  validateAgainstSchema literalRegExp (VStr "ok") (stringOrNumber (World := nat)) "" 0
  = (Normal (mkResult [] []), 0).
Proof. reflexivity. Qed.

(** [{type: "string"}] against a number, at path [doc]. *)
Lemma type_mismatch_stops_witness :
  validateAgainstSchema literalRegExp (VNum 5%float) (typed (World := nat) "string") "doc" 0
  = (Normal (mkResult [withPath "doc" (msgType "string" "number")] []), 0).
Proof.
  apply (@type_mismatch_stops nat literalRegExp (VNum 5%float) (typed "string") "doc"
           "string" 0).
  - reflexivity.
  - reflexivity.
  - discriminate.
  - discriminate.
Defined.

(** C3 fails when [anyOf] is present: the declared type is string, the data
    is a number, and yet no error is returned, because the anyOf rule comes
    first and its alternative accepts the number. *)
Lemma type_mismatch_under_anyOf :
  type (stringWithAnyOf (World := nat)) = Some "string"
  /\ typeOf (VNum 5%float) = "number"
  /\ validateAgainstSchema literalRegExp (VNum 5%float) (stringWithAnyOf (World := nat)) "" 0
     = (Normal (mkResult [] []), 0).
Proof. repeat split. Qed.


(** C9 fails for a schema whose hook has state: the same call, made twice in
    a row, first accepts the document and then rejects it. *)
Lemma stateful_hook_changes_verdict :
  validateAgainstSchema literalRegExp (VObj []) (withCustom onceOnly) "" 0
  = (Normal (mkResult [] []), 1)
  /\ validateAgainstSchema literalRegExp (VObj []) (withCustom onceOnly) "" 1
     = (Normal (mkResult ["seen before"] []), 2).
Proof. split; reflexivity. Qed.

(** A stateless hook: the call ends alike in the worlds 0 and 7. *)
Lemma stateless_hooks_deterministic_witness :
  fst (validateAgainstSchema literalRegExp badPerson (withCustom wantsName) "doc" 0)
  = fst (validateAgainstSchema literalRegExp badPerson (withCustom wantsName) "doc" 7)
  /\ snd (validateAgainstSchema literalRegExp badPerson (withCustom wantsName) "doc" 0) = 0.
Proof.
  apply (@stateless_hooks_deterministic nat literalRegExp badPerson
           (withCustom wantsName) "doc" 0 7).
  cbn. repeat split.
  intros v. eexists. intros n. reflexivity.
Defined.

(** The messages about [badPerson] under the path [doc]. *)
Lemma path_prefix_invariant_witness :
  Forall (fun m => prefix "doc" m = true)
         ([withPath "doc.name" (msgType "string" "number");
           withPath "doc.tags" (msgMinItems 0 1)] ++ []).
Proof.
  apply (@path_prefix_invariant nat literalRegExp badPerson person "doc" 0 0
           (mkResult [withPath "doc.name" (msgType "string" "number");
                      withPath "doc.tags" (msgMinItems 0 1)] [])).
  reflexivity.
Defined.


(** ** Further examples *)

(** A server that answers every request with the same response. *)
Definition serve (res : Response nat) (_ : string) : M nat (Response nat) := ret res.

(** A network that is down: [fetch] rejects. *)
Definition offline (_ : string) : M nat (Response nat) := throw "Failed to fetch".

(** An ok response whose body is not JSON. *)
Definition htmlBody : Response nat :=
  mkResponse true 200 (throw "Unexpected token < in JSON at position 0").


(** [{ type: "string", pattern: p }]. *)
Definition matching {World} (p : string) : Schema World :=
  mkSchema (Some "string") None None None None (Some p) None None.

(** ** The orchestrator, path by path *)

Section OrchestratorPaths.

Variable World : Type.
Variable RegExp : string -> completion (string -> bool).
Variable getElementById : string -> World -> bool.
Variable fetch : string -> M World (Response World).

Local Abbreviation orchestrate :=
  (validateAndRender (World := World) RegExp getElementById fetch).

(** What the top-level catch does with a failure: log it, then fill the
    mount. *)
Lemma load_failure_run (url message : string) (mountOnErrorId : option string)
    (w : World) (trace : list event) :
  (_ <- emit (ConsoleErrorThrown message) ;;
   showOnMount getElementById mountOnErrorId (htmlLoadFailed url message)) (w, trace)
  = (Normal tt,
     (w, trace ++ ConsoleErrorThrown message
                  :: mountEvents getElementById mountOnErrorId
                       (htmlLoadFailed url message) w)).
Proof.
  unfold bind, emit; cbn [fst snd].
  rewrite showOnMount_run. now rewrite <- app_assoc.
Qed.


(** X2. A response that is not ok is reported as a load failure naming the
    URL and the status: the body is not read, no panel is shown, the
    render callback is not called. *)
Theorem http_failure_reported (url : string) (schema : Schema World)
    (mountOnErrorId : option string) (render : value -> M World unit)
    (res : Response World) (w0 w1 : World) (trace : list event) :
  fetch url w0 = (Normal res, w1) ->
  ok res = false ->
  orchestrate url schema mountOnErrorId render (w0, trace)
  = (Normal tt,
     (w1, trace ++ ConsoleErrorThrown (url ++ " HTTP " ++ showNat (status res))
                   :: mountEvents getElementById mountOnErrorId
                        (htmlLoadFailed url (url ++ " HTTP " ++ showNat (status res)))
                        w1)).
Proof.
  intros Hfetch Hok.
  unfold validateAndRender, tryCatch.
  unfold bind at 1. unfold liftW at 1. cbn [fst snd]. rewrite Hfetch.
  rewrite Hok. cbn [negb]. unfold throw.
  apply load_failure_run.
Qed.

(** X3. A rejected fetch is reported with its message on the console and
    on the mount; nothing else happens. *)
Theorem fetch_rejection_reported (url : string) (schema : Schema World)
    (mountOnErrorId : option string) (render : value -> M World unit)
    (message : string) (w0 w1 : World) (trace : list event) :
  fetch url w0 = (Throw message, w1) ->
  orchestrate url schema mountOnErrorId render (w0, trace)
  = (Normal tt,
     (w1, trace ++ ConsoleErrorThrown message
                   :: mountEvents getElementById mountOnErrorId
                        (htmlLoadFailed url message) w1)).
Proof.
  intros Hfetch.
  unfold validateAndRender, tryCatch.
  unfold bind at 1. unfold liftW at 1. cbn [fst snd]. rewrite Hfetch.
  apply load_failure_run.
Qed.

(** X4. A body that does not decode as JSON is reported as a load failure
    with the decoder's message; the matcher, the panel and the render
    callback are not reached. *)
Theorem decode_failure_reported (url : string) (schema : Schema World)
    (mountOnErrorId : option string) (render : value -> M World unit)
    (res : Response World) (message : string) (w0 w1 w2 : World)
    (trace : list event) :
  fetch url w0 = (Normal res, w1) ->
  ok res = true ->
  json res w1 = (Throw message, w2) ->
  orchestrate url schema mountOnErrorId render (w0, trace)
  = (Normal tt,
     (w2, trace ++ ConsoleErrorThrown message
                   :: mountEvents getElementById mountOnErrorId
                        (htmlLoadFailed url message) w2)).
Proof.
  intros Hfetch Hok Hjson.
  unfold validateAndRender, tryCatch.
  unfold bind at 1. unfold liftW at 1. cbn [fst snd]. rewrite Hfetch.
  rewrite Hok. cbn [negb].
  unfold bind at 1. unfold liftW at 1. cbn [fst snd]. rewrite Hjson.
  apply load_failure_run.
Qed.

(** X5. When the matcher itself throws (a malformed pattern), the failure
    is reported like a load failure: no panel, no render. *)
Theorem matcher_failure_reported (url : string) (schema : Schema World)
    (mountOnErrorId : option string) (render : value -> M World unit)
    (res : Response World) (decoded : value) (message : string)
    (w0 w1 w2 w3 : World) (trace : list event) :
  fetch url w0 = (Normal res, w1) ->
  ok res = true ->
  json res w1 = (Normal decoded, w2) ->
  validateAgainstSchema RegExp decoded schema (stripJsonSuffix url) w2
  = (Throw message, w3) ->
  orchestrate url schema mountOnErrorId render (w0, trace)
  = (Normal tt,
     (w3, trace ++ ConsoleErrorThrown message
                   :: mountEvents getElementById mountOnErrorId
                        (htmlLoadFailed url message) w3)).
Proof.
  intros Hfetch Hok Hjson Hval.
  unfold validateAndRender, tryCatch.
  unfold bind at 1. unfold liftW at 1. cbn [fst snd]. rewrite Hfetch.
  rewrite Hok. cbn [negb].
  unfold bind at 1. unfold liftW at 1. cbn [fst snd]. rewrite Hjson.
  unfold bind at 1. unfold liftW at 1. cbn [fst snd]. rewrite Hval.
  apply load_failure_run.
Qed.

(** X6. When the matcher returns errors, the panel is shown with them, the
    mount (if given and present) gets the validation-failed message, and
    nothing is logged as a load failure; the render callback is not
    called and the world is as the matcher left it. *)
Theorem validation_failure_shown (url : string) (schema : Schema World)
    (mountOnErrorId : option string) (render : value -> M World unit)
    (res : Response World) (decoded : value) (r : Result)
    (w0 w1 w2 w3 : World) (trace : list event) :
  fetch url w0 = (Normal res, w1) ->
  ok res = true ->
  json res w1 = (Normal decoded, w2) ->
  validateAgainstSchema RegExp decoded schema (stripJsonSuffix url) w2
  = (Normal r, w3) ->
  errors r <> [] ->
  orchestrate url schema mountOnErrorId render (w0, trace)
  = (Normal tt,
     (w3, (trace ++ panelEvents url (errors r) (warnings r))
          ++ mountEvents getElementById mountOnErrorId (htmlValidationFailed url) w3)).
Proof.
  intros Hfetch Hok Hjson Hval Herr.
  unfold validateAndRender, tryCatch.
  unfold bind at 1. unfold liftW at 1. cbn [fst snd]. rewrite Hfetch.
  rewrite Hok. cbn [negb].
  unfold bind at 1. unfold liftW at 1. cbn [fst snd]. rewrite Hjson.
  unfold bind at 1. unfold liftW at 1. cbn [fst snd]. rewrite Hval.
  unfold bind at 1. rewrite showValidationPanel_run.
  destruct (errors r) as [|e es]; [now elim Herr|]. cbn [length Nat.eqb negb].
  now rewrite showOnMount_run.
Qed.

(** X7. When the matcher returns no errors and the render callback
    returns, the run consists of the panel and the one render call: the
    mount is left alone and nothing is logged as a failure. *)
Theorem success_renders_only (url : string) (schema : Schema World)
    (mountOnErrorId : option string) (render : value -> M World unit)
    (res : Response World) (decoded : value) (r : Result)
    (w0 w1 w2 w3 w4 : World) (trace : list event) :
  fetch url w0 = (Normal res, w1) ->
  ok res = true ->
  json res w1 = (Normal decoded, w2) ->
  validateAgainstSchema RegExp decoded schema (stripJsonSuffix url) w2
  = (Normal r, w3) ->
  errors r = [] ->
  render decoded w3 = (Normal tt, w4) ->
  orchestrate url schema mountOnErrorId render (w0, trace)
  = (Normal tt,
     (w4, (trace ++ panelEvents url [] (warnings r)) ++ [RenderCall decoded])).
Proof.
  intros Hfetch Hok Hjson Hval Herr Hrender.
  unfold validateAndRender, tryCatch.
  unfold bind at 1. unfold liftW at 1. cbn [fst snd]. rewrite Hfetch.
  rewrite Hok. cbn [negb].
  unfold bind at 1. unfold liftW at 1. cbn [fst snd]. rewrite Hjson.
  unfold bind at 1. unfold liftW at 1. cbn [fst snd]. rewrite Hval.
  unfold bind at 1. rewrite showValidationPanel_run.
  rewrite Herr. cbn [length Nat.eqb negb].
  unfold bind, emit, liftW. cbn [fst snd]. now rewrite Hrender.
Qed.


End OrchestratorPaths.

(** ** The suffix of the URL *)

Lemma substring_app_left (a b : string) : substring 0 (String.length a) (a ++ b) = a.
Proof.
  induction a as [|c a IH]; cbn.
  - now destruct b.
  - now rewrite IH.
Qed.

Lemma substring_app_right (a b : string) (n : nat) :
  substring (String.length a) n (a ++ b) = substring 0 n b.
Proof. induction a as [|c a IH]; cbn; [reflexivity | exact IH]. Qed.

Lemma length_app_string (a b : string) :
  String.length (a ++ b) = (String.length a + String.length b)%nat.
Proof. induction a as [|c a IH]; cbn; [reflexivity | now rewrite IH]. Qed.

Lemma prefix_substring (n : nat) (s : string) : prefix (substring 0 n s) s = true.
Proof.
  revert n; induction s as [|c s IH]; intros n.
  - now destruct n.
  - destruct n as [|n]; cbn; [reflexivity|].
    destruct (ascii_dec c c) as [_|N]; [apply IH | now elim N].
Qed.

Lemma prefix_refl (s : string) : prefix s s = true.
Proof.
  induction s as [|c s IH]; cbn; [reflexivity|].
  destruct (ascii_dec c c) as [_|N]; [exact IH | now elim N].
Qed.

(** X9. The initial path of a document: for a URL that ends in [.json]
    the suffix is removed, exactly once, and what remains is the part
    before it. *)
Theorem stripJsonSuffix_removes_suffix (base : string) :
  stripJsonSuffix (base ++ ".json") = base.
Proof.
  unfold stripJsonSuffix, endsWith.
  rewrite length_app_string. cbn [String.length].
  replace (String.length base + 5 - 5)%nat with (String.length base)
    by (now rewrite Nat.add_sub).
  rewrite substring_app_right.
  replace (5 <=? String.length base + 5)%nat with true
    by (symmetry; apply Nat.leb_le, Nat.le_add_l).
  cbn [substring String.eqb Ascii.eqb Bool.eqb andb].
  apply substring_app_left.
Qed.

(** X10. Whatever the URL, the initial path is a prefix of it: the
    replacement only ever cuts at the end. *)
Theorem stripJsonSuffix_is_prefix (url : string) :
  prefix (stripJsonSuffix url) url = true.
Proof.
  unfold stripJsonSuffix.
  destruct (endsWith url ".json"); [apply prefix_substring | apply prefix_refl].
Qed.

(** ** More rules of the matcher *)

Section MatcherRules.

Variable World : Type.
Variable RegExp : string -> completion (string -> bool).

Local Abbreviation check := (validateAgainstSchema (World := World) RegExp).

Lemma mapM_pure {S A B} (f : A -> M S B) (g : A -> B) (l : list A) (s : S) :
  (forall x s', In x l -> f x s' = (Normal (g x), s')) ->
  mapM f l s = (Normal (map g l), s).
Proof.
  induction l as [|x l IH]; intros H; cbn; [reflexivity|].
  unfold bind. rewrite (H x s (or_introl eq_refl)).
  rewrite IH; [reflexivity|]. intros; apply H; now right.
Qed.

Lemma mapM_throws {S A B} (f : A -> M S B) (pre post : list A) (x : A)
    (ys : list B) (m : string) (s s1 s2 : S) :
  mapM f pre s = (Normal ys, s1) ->
  f x s1 = (Throw m, s2) ->
  mapM f (pre ++ x :: post) s = (Throw m, s2).
Proof.
  revert s ys; induction pre as [|a pre IH]; intros s ys; cbn.
  - intros E; injection E as _ <-. unfold bind. intros ->. reflexivity.
  - unfold bind. destruct (f a s) as [[y|m'] s'] eqn:Ea; [|discriminate].
    destruct (mapM f pre s') as [[ys'|m'] s''] eqn:Epre; [|discriminate].
    cbn. intros E; injection E as _ <-. intros Hx.
    now rewrite (IH s' ys' Epre Hx).
Qed.

Lemma allErrors_empties {A} (l : list A) :
  allErrors (map (fun _ => mkResult [] []) l) = [].
Proof. induction l; [reflexivity | exact IHl]. Qed.

Lemma allWarnings_empties {A} (l : list A) :
  allWarnings (map (fun _ => mkResult [] []) l) = [].
Proof. induction l; [reflexivity | exact IHl]. Qed.

(** X11. The structural rules are keyed on [schema.type]: a schema without
    [anyOf] whose [type] is absent or empty accepts every value and
    reports nothing, whatever [required], [properties], [items],
    [minItems], [pattern] and [custom] hold; the hook is not called and
    the pattern is not compiled. *)
Theorem untyped_schema_accepts_all (data : value) (schema : Schema World)
    (path : string) (w : World) :
  anyOf schema = None ->
  type schema = None \/ type schema = Some "" ->
  check data schema path w = (Normal (mkResult [] []), w).
Proof.
  intros Hany Hty.
  rewrite validate_checks; [| exact Hany | now destruct Hty as [-> | ->]].
  destruct Hty as [-> | ->]; cbn; unfold bind, ret;
    now destruct (pattern schema).
Qed.

(** X12. An [anyOf] with no alternatives rejects every value: the single
    shape error, no warnings. *)
Theorem empty_anyOf_rejects_all (data : value) (schema : Schema World)
    (path : string) (w : World) :
  anyOf schema = Some [] ->
  check data schema path w = (Normal (mkResult [withPath path msgAnyOf] []), w).
Proof. intros H. now rewrite validate_anyOf with (alternatives := []). Qed.

(** X13. The alternatives of [anyOf] are all evaluated before any is
    judged, and nothing is caught: if one of them throws (a malformed
    pattern), the whole call throws with it, also when an alternative
    before or after it accepts the data. *)
Theorem throwing_alternative_aborts_anyOf (data : value) (schema : Schema World)
    (path : string) (pre post : list (Schema World)) (s : Schema World)
    (results : list Result) (message : string) (w w1 w2 : World) :
  anyOf schema = Some (pre ++ s :: post) ->
  mapM (fun a => check data a path) pre w = (Normal results, w1) ->
  check data s path w1 = (Throw message, w2) ->
  check data schema path w = (Throw message, w2).
Proof.
  intros Hany Hpre Hs.
  rewrite validate_anyOf with (alternatives := pre ++ s :: post) by exact Hany.
  unfold bind.
  now rewrite (mapM_throws (fun a => check data a path) pre post s w Hpre Hs).
Qed.

(** X14. The string rule: for a string-typed schema with a non-empty
    pattern that compiles, a string is accepted exactly when the compiled
    expression matches it; otherwise the one error names the pattern. *)
Theorem pattern_rule (schema : Schema World) (path s p : string)
    (test : string -> bool) (w : World) :
  anyOf schema = None ->
  type schema = Some "string" ->
  pattern schema = Some p ->
  p <> "" ->
  RegExp p = Normal test ->
  check (VStr s) schema path w
  = (Normal (mkResult (if test s then [] else [withPath path (msgPattern p)]) []), w).
Proof.
  intros Hany Hty Hpat Hne Hre.
  rewrite validate_checks; [| exact Hany | rewrite Hty; now apply typeDiffers_same].
  rewrite Hty, Hpat. cbn [typeIs String.eqb Ascii.eqb Bool.eqb].
  unfold bind, ret, checkPattern. cbn [typeIs String.eqb Ascii.eqb Bool.eqb andb].
  unfold truthyStr. apply String.eqb_neq in Hne. rewrite Hne. cbn [negb].
  rewrite Hre. cbn [stringOf orElse errors warnings].
  now destruct (test s).
Qed.

(** X15. A malformed pattern is not caught: validating a string against
    it throws the engine's error. *)
Theorem malformed_pattern_throws (schema : Schema World) (path s p message : string)
    (w : World) :
  anyOf schema = None ->
  type schema = Some "string" ->
  pattern schema = Some p ->
  p <> "" ->
  RegExp p = Throw message ->
  check (VStr s) schema path w = (Throw message, w).
Proof.
  intros Hany Hty Hpat Hne Hre.
  rewrite validate_checks; [| exact Hany | rewrite Hty; now apply typeDiffers_same].
  rewrite Hty, Hpat. cbn [typeIs String.eqb Ascii.eqb Bool.eqb].
  unfold bind, ret, checkPattern. cbn [typeIs String.eqb Ascii.eqb Bool.eqb andb].
  unfold truthyStr. apply String.eqb_neq in Hne. rewrite Hne. cbn [negb].
  now rewrite Hre.
Qed.

(** X16. An array-typed schema without [items] puts no constraint on the
    elements: only the length is checked. *)
Theorem array_without_items (schema : Schema World) (path : string)
    (elements : list value) (w : World) :
  anyOf schema = None ->
  type schema = Some "array" ->
  items schema = None ->
  check (VArr elements) schema path w
  = (Normal (mkResult (minItemsErrors path (minItems schema) (length elements)) []), w).
Proof.
  intros Hany Hty Hits.
  rewrite validate_checks; [| exact Hany | rewrite Hty; now apply typeDiffers_same].
  rewrite Hty, Hits. cbn [typeIs String.eqb Ascii.eqb Bool.eqb].
  rewrite !elementsOf_VArr.
  unfold bind at 1. unfold ret at 1. unfold bind at 1. unfold bind at 1.
  rewrite (mapM_pure (validateItem RegExp None path) (fun _ => mkResult [] []));
    [| intros; reflexivity].
  rewrite pushAll_eq, allErrors_empties, allWarnings_empties.
  cbn [errors warnings app emptyResult].
  unfold ret at 1. unfold bind.
  rewrite checkPattern_not_string by reflexivity.
  reflexivity.
Qed.

(** X17. Only a non-empty string counts as a rejection by the hook: when
    it returns anything else ([undefined], [true], a number, the empty
    string) no error is added for it. *)
Theorem hook_other_results_ignored (schema : Schema World) (path : string)
    (entries : list (string * value)) (f : hook World) (children : list Result)
    (v : value) (w w1 w2 : World) :
  anyOf schema = None ->
  type schema = Some "object" ->
  custom schema = Some f ->
  mapM (validateProperty RegExp (propsOf (properties schema)) path) entries w
  = (Normal children, w1) ->
  f (VObj entries) w1 = (Normal v, w2) ->
  (forall s, v = VStr s -> s = "") ->
  check (VObj entries) schema path w
  = (Normal (mkResult
               (requiredErrors path (reqOf (required schema)) (VObj entries)
                ++ allErrors children)
               (allWarnings children)), w2).
Proof.
  intros Hany Hty Hcust Hmap Hf Hv.
  rewrite (validate_object RegExp schema path entries w Hany Hty Hmap).
  rewrite Hcust. unfold bind, runCustom, tryCatch, bind. rewrite Hf.
  destruct v; try reflexivity.
  now rewrite (Hv s eq_refl).
Qed.

End MatcherRules.

(** ** Invariants of the matcher *)


Section MatcherInvariants.

Variable World : Type.
Variable RegExp : string -> completion (string -> bool).

Local Abbreviation check := (validateAgainstSchema (World := World) RegExp).


(** A result without errors has no warnings either. *)
Definition quiet (r : Result) : Prop := errors r = [] -> warnings r = [].

Lemma quiet_all (rs : list Result) :
  Forall quiet rs -> allErrors rs = [] -> allWarnings rs = [].
Proof.
  unfold allErrors, allWarnings.
  induction 1 as [|r rs Hr _ IH]; cbn; [reflexivity|].
  intros E. apply app_eq_nil in E as [Er Ers].
  now rewrite (Hr Er), (IH Ers).
Qed.

Lemma runCustom_extends (path : string) (c : option (hook World)) (data : value)
    (es es' : list string) (w w' : World) :
  runCustom path c data es w = (Normal es', w') -> exists extra, es' = es ++ extra.
Proof.
  unfold runCustom, tryCatch, bind, ret, addE.
  destruct c as [f|].
  - destruct (f data w) as [[v|m] w1].
    + destruct v; try (intros E; injection E as <- _; exists []; now rewrite app_nil_r).
      destruct (truthyStr s); intros E; injection E as <- _;
        [eexists; reflexivity | exists []; now rewrite app_nil_r].
    + intros E; injection E as <- _. eexists; reflexivity.
  - intros E; injection E as <- _. exists []; now rewrite app_nil_r.
Qed.

Lemma checkPattern_extends (path : string) (ty pat : option string) (data : value)
    (es es' : list string) (w w' : World) :
  checkPattern RegExp path ty pat data es w = (Normal es', w') ->
  exists extra, es' = es ++ extra.
Proof.
  unfold checkPattern, ret, throw, addE.
  destruct pat as [p|];
    [|intros E; injection E as <- _; exists []; now rewrite app_nil_r].
  destruct (typeIs ty "string" && truthyStr p);
    [|intros E; injection E as <- _; exists []; now rewrite app_nil_r].
  destruct (RegExp p) as [test|m]; [|discriminate].
  destruct (negb (test (stringOf data))); intros E; injection E as <- _;
    [eexists; reflexivity | exists []; now rewrite app_nil_r].
Qed.

Lemma checkMinItems_extends (path : string) (mi : option Z) (data : value)
    (es : list string) :
  exists extra, checkMinItems path mi data es = es ++ extra.
Proof.
  unfold checkMinItems, addE.
  destruct mi as [n|]; [|exists []; now rewrite app_nil_r].
  destruct (Z.of_nat (length (elementsOf data)) <? n)%Z;
    [eexists; reflexivity | exists []; now rewrite app_nil_r].
Qed.

Lemma anyOfResult_quiet (path : string) (results : list Result) (r : Result)
    (w w' : World) :
  Forall quiet results -> anyOfResult path results w = (Normal r, w') -> quiet r.
Proof.
  intros Hrs. unfold anyOfResult.
  destruct (existsb noErrors results); cbn [negb].
  - destruct (find noErrors results) as [firstOK|] eqn:Ef; [|discriminate].
    unfold ret. intros E; injection E as <- _. intros _. cbn.
    apply find_some in Ef as [Hin Hok].
    rewrite Forall_forall in Hrs. apply (Hrs _ Hin).
    unfold noErrors in Hok. apply Nat.eqb_eq in Hok.
    now apply length_zero_iff_nil.
  - unfold ret, addE. intros E; injection E as <- _. intros H. discriminate H.
Qed.

(** X18. A result without errors carries no warnings: warnings only ever
    accompany the error of a failed [anyOf], so a document that passes is
    reported with an empty warnings list. *)
Theorem no_errors_no_warnings (data : value) (schema : Schema World) (path : string)
    (w w' : World) (r : Result) :
  check data schema path w = (Normal r, w') ->
  errors r = [] ->
  warnings r = [].
Proof.
  change (check data schema path w = (Normal r, w') -> quiet r).
  revert data path w w' r.
  induction schema as [ty props req its mi pat alts cust IHprops IHits IHalts]
    using Schema_nested_ind.
  intros data path w w' r.
  destruct alts as [alternatives|].
  - rewrite validate_anyOf with (alternatives := alternatives) by reflexivity.
    unfold bind.
    destruct (mapM _ alternatives w) as [[results|m] w1] eqn:Hmap; [|discriminate].
    apply anyOfResult_quiet.
    eapply mapM_results; [|exact Hmap].
    intros s s0 y s1 Hin Hs.
    specialize (IHalts _ eq_refl). rewrite Forall_forall in IHalts.
    exact (IHalts s Hin _ _ _ _ _ Hs).
  - destruct (typeDiffers ty (typeOf data)) as [ty'|] eqn:Hdiff.
    + rewrite validate_typeDiffers with (ty := ty'); [| reflexivity | exact Hdiff].
      intros E; injection E as <- _. intros H. discriminate H.
    + rewrite validate_checks; [| reflexivity | exact Hdiff].
      cbn [type properties required items minItems pattern custom].
      unfold bind at 1.
      assert (H1 : forall r1 w1,
                 (if typeIs ty "object"
                  then
                    let errors1 := checkRequired path (reqOf req) data [] in
                    children <- mapM (validateProperty RegExp (propsOf props) path)
                                     (entriesOf data) ;;
                    let r0 := pushAll (mkResult errors1 []) children in
                    errors2 <- runCustom path cust data (errors r0) ;;
                    ret (mkResult errors2 (warnings r0))
                  else ret emptyResult) w = (Normal r1, w1) -> quiet r1).
      { intros r1 w1. destruct (typeIs ty "object").
        - cbv zeta. unfold bind at 1.
          destruct (mapM _ (entriesOf data) w) as [[children|m] w2] eqn:Hmap; [|discriminate].
          assert (Hch : Forall quiet children).
          { eapply mapM_results; [|exact Hmap].
            intros [k v] s0 y s1 _. unfold validateProperty; cbn [fst snd].
            destruct (assoc k (propsOf props)) as [childSchema|] eqn:Hk.
            - intros Hs. apply assoc_In in Hk as [k' Hin].
              destruct props as [ps|]; [|now cbn in Hin].
              specialize (IHprops _ eq_refl). rewrite Forall_forall in IHprops.
              exact (IHprops _ Hin _ _ _ _ _ Hs).
            - unfold ret. intros E; injection E as <- _. now intros _. }
          rewrite pushAll_eq. cbn [errors warnings app].
          unfold bind.
          destruct (runCustom path cust data _ w2) as [[es2|m] w3] eqn:Hc; [|discriminate].
          unfold ret. intros E; injection E as <- _.
          intros Hnil; cbn in Hnil |- *.
          apply runCustom_extends in Hc as [extra ->].
          apply app_eq_nil in Hnil as [Hnil _].
          apply app_eq_nil in Hnil as [_ Hnil].
          now apply quiet_all.
        - unfold ret. intros E; injection E as <- _. now intros _. }
      match goal with
      | |- context [match ?c w with _ => _ end] => destruct (c w) as [[r1|m] w1] eqn:Hr1
      end; [|discriminate].
      specialize (H1 _ _ eq_refl).
      unfold bind at 1.
      assert (H2 : forall r2 w2,
                 (if typeIs ty "array"
                  then
                    children <- mapM (validateItem RegExp its path)
                                     (indexed (elementsOf data)) ;;
                    let r0 := pushAll r1 children in
                    ret (mkResult (checkMinItems path mi data (errors r0)) (warnings r0))
                  else ret r1) w1 = (Normal r2, w2) -> quiet r2).
      { intros r2 w2. destruct (typeIs ty "array").
        - unfold bind at 1.
          destruct (mapM _ (indexed (elementsOf data)) w1) as [[children|m] w3] eqn:Hmap;
            [|discriminate].
          assert (Hch : Forall quiet children).
          { eapply mapM_results; [|exact Hmap].
            intros [i v] s0 y s1 _. unfold validateItem; cbn [fst snd].
            destruct its as [itemSchema|]; cbn [itemSchemaOf].
            - intros Hs. exact (IHits _ eq_refl _ _ _ _ _ Hs).
            - rewrite validateAgainstSchema_emptySchema.
              intros E; injection E as <- _. now intros _. }
          cbv zeta. rewrite pushAll_eq. cbn [errors warnings].
          unfold ret. intros E; injection E as <- _.
          intros Hnil; cbn in Hnil |- *.
          destruct (checkMinItems_extends path mi data (errors r1 ++ allErrors children))
            as [extra Hx].
          rewrite Hx in Hnil.
          apply app_eq_nil in Hnil as [Hnil _].
          apply app_eq_nil in Hnil as [Hnil1 Hnil2].
          now rewrite (H1 Hnil1), (quiet_all Hch Hnil2).
        - unfold ret. intros E; injection E as <- _. exact H1. }
      match goal with
      | |- context [match ?c w1 with _ => _ end] => destruct (c w1) as [[r2|m] w2] eqn:Hr2
      end; [|discriminate].
      specialize (H2 _ _ eq_refl).
      unfold bind.
      destruct (checkPattern RegExp path ty pat data (errors r2) w2) as [[es3|m] w3] eqn:Hp;
        [|discriminate].
      unfold ret. intros E; injection E as <- _.
      intros Hnil; cbn in Hnil |- *.
      apply checkPattern_extends in Hp as [extra ->].
      apply app_eq_nil in Hnil as [Hnil _].
      now apply H2.
Qed.








Lemma find_after_existsb {A} (f : A -> bool) (l : list A) :
  existsb f l = true -> exists x, find f l = Some x.
Proof.
  intros H. destruct (find f l) as [x|] eqn:Ef; [now exists x|].
  apply existsb_exists in H as (x & Hin & Hx).
  now rewrite (find_none _ _ Ef x Hin) in Hx.
Qed.

(** X19. The success branch of [anyOf] reads [firstOK.warnings] only
    after [some] has found a result without errors, so [find] finds one
    too: judging the alternatives never throws and changes nothing. *)
Theorem anyOfResult_never_throws (path : string) (results : list Result) (w : World) :
  exists r, anyOfResult path results w = (Normal r, w).
Proof.
  unfold anyOfResult.
  destruct (existsb noErrors results) eqn:Hok; cbn [negb].
  - destruct (find_after_existsb _ _ Hok) as [firstOK ->]. now eexists.
  - now eexists.
Qed.



End MatcherInvariants.

(** ** Objects: required and undeclared keys *)

Section ObjectKeys.

Variable World : Type.
Variable RegExp : string -> completion (string -> bool).

Local Abbreviation check := (validateAgainstSchema (World := World) RegExp).

Lemma mapM_neutral {S A B} (f : A -> M S B) (x : A) (e : B) (l1 l2 : list A) (s : S) :
  (forall s', f x s' = (Normal e, s')) ->
  mapM f (l1 ++ x :: l2) s
  = match mapM f (l1 ++ l2) s with
    | (Normal ys, s') =>
        (Normal (firstn (length l1) ys ++ e :: skipn (length l1) ys), s')
    | (Throw m, s') => (Throw m, s')
    end.
Proof.
  intros Hx. revert s; induction l1 as [|a l1 IH]; intros s; cbn.
  - unfold bind. rewrite Hx.
    now destruct (mapM f l2 s) as [[ys|m] s'].
  - unfold bind. destruct (f a s) as [[y|m] s1]; [|reflexivity].
    rewrite IH. now destruct (mapM f (l1 ++ l2) s1) as [[ys|m] s'].
Qed.

Lemma pushAll_neutral (acc : Result) (n : nat) (rs : list Result) :
  pushAll acc (firstn n rs ++ mkResult [] [] :: skipn n rs) = pushAll acc rs.
Proof.
  rewrite !pushAll_eq. unfold allErrors, allWarnings.
  rewrite !map_app, !concat_app. cbn [map concat app errors warnings].
  rewrite <- !concat_app, <- !map_app. now rewrite firstn_skipn.
Qed.

Lemma hasOwn_other {A} (k k' : string) (a : A) (l1 l2 : list (string * A)) :
  k' <> k -> hasOwn k' (l1 ++ (k, a) :: l2) = hasOwn k' (l1 ++ l2).
Proof.
  intros Hne. unfold hasOwn, memStr.
  rewrite !map_app, !existsb_app. cbn [map existsb fst].
  apply String.eqb_neq in Hne. now rewrite Hne.
Qed.

Lemma missingKeys_other (req : list string) (k : string) (v : value)
    (l1 l2 : list (string * value)) :
  ~ In k req ->
  missingKeys req (VObj (l1 ++ (k, v) :: l2)) = missingKeys req (VObj (l1 ++ l2)).
Proof.
  intros Hk. unfold missingKeys. apply filter_ext_in.
  intros k' Hin. rewrite !entriesOf_VObj. unfold hasProperty.
  rewrite hasOwn_other; [reflexivity|].
  intros ->. now apply Hk.
Qed.

(** X21. The schema is open: a key of the data that [properties] does not
    declare (and [required] does not list) is not looked at.  For an
    object-typed schema without a custom hook, adding such an entry
    anywhere in the document changes neither the result nor the world. *)
Theorem undeclared_key_ignored (schema : Schema World) (path k : string) (v : value)
    (before after : list (string * value)) (w : World) :
  anyOf schema = None ->
  type schema = Some "object" ->
  custom schema = None ->
  assoc k (propsOf (properties schema)) = None ->
  ~ In k (reqOf (required schema)) ->
  check (VObj (before ++ (k, v) :: after)) schema path w
  = check (VObj (before ++ after)) schema path w.
Proof.
  intros Hany Hty Hcust Hk Hreq.
  rewrite !validate_checks;
    try exact Hany; try (rewrite Hty; now apply typeDiffers_same).
  rewrite Hty, Hcust. cbn [typeIs String.eqb Ascii.eqb Bool.eqb].
  rewrite !entriesOf_VObj.
  apply bind_ext.
  - rewrite !checkRequired_eq, (@missingKeys_other _ k v before after Hreq).
    unfold bind, runCustom, ret.
    rewrite (@mapM_neutral _ _ _
               (validateProperty RegExp (propsOf (properties schema)) path)
               (k, v) (mkResult [] []) before after w).
    + destruct (mapM _ (before ++ after) w) as [[ys|m] w1]; [|reflexivity].
      now rewrite pushAll_neutral.
    + intros s'. unfold validateProperty; cbn [fst snd]. now rewrite Hk.
  - intros r1 s1. unfold bind, ret.
    now rewrite !checkPattern_not_string.
Qed.

Lemma hasProperty_own (k : string) (entries : list (string * value)) :
  ~ In k objectPrototypeKeys -> hasProperty k entries = hasOwn k entries.
Proof.
  intros Hk. unfold hasProperty.
  replace (memStr k objectPrototypeKeys) with false; [apply orb_false_r|].
  symmetry. apply not_true_is_false. intros E.
  apply existsb_exists in E as (x & Hin & Hx).
  apply String.eqb_eq in Hx. subst x. now apply Hk.
Qed.

(** X22. Away from the names every object inherits, the required rule
    tests the document's own keys: for an object-typed schema with only
    [required] set, none of whose entries is a member of
    [Object.prototype], the errors are the missing-key messages of exactly
    the entries that are not keys of the data, in the order of
    [required]. *)
Theorem required_own_keys (schema : Schema World) (path : string)
    (entries : list (string * value)) (w : World) :
  anyOf schema = None ->
  type schema = Some "object" ->
  properties schema = None ->
  custom schema = None ->
  (forall k, In k (reqOf (required schema)) -> ~ In k objectPrototypeKeys) ->
  check (VObj entries) schema path w
  = (Normal (mkResult
               (map (fun k => withPath path (msgMissing k))
                    (filter (fun k => negb (hasOwn k entries)) (reqOf (required schema))))
               []), w).
Proof.
  intros Hany Hty Hprops Hcust Hreq.
  rewrite (validate_object RegExp schema path entries (children := map (fun _ => mkResult [] []) entries) w (w1 := w) Hany Hty).
  - rewrite Hcust. unfold bind, runCustom, ret.
    rewrite allErrors_empties, allWarnings_empties, app_nil_r.
    unfold requiredErrors, missingKeys. rewrite entriesOf_VObj.
    do 4 f_equal. apply filter_ext_in.
    intros k Hin. now rewrite hasProperty_own by (now apply Hreq).
  - rewrite Hprops. apply mapM_pure. intros; reflexivity.
Qed.

End ObjectKeys.

(** ** The further theorems at concrete inputs *)

(** A hook that answers [true]. *)
Definition alwaysTrue : hook nat := fun _ n => (Normal (VBool true), n).

(** [{ required: ["a"], pattern: "(", custom: failing }], without a type. *)
Definition untyped : Schema nat :=
  mkSchema None None (Some ["a"]) None None (Some "(") None (Some failing).

(** [{ anyOf: [{type: "number"}, {type: "string", pattern: "("}, {type: "string"}] }]. *)
Definition brokenAlternative : Schema nat :=
  mkSchema None None None None None None
    (Some [typed "number"; matching "("; typed "string"]) None.

(** A request for a missing file: status 404 on the console and the mount. *)
Lemma http_failure_reported_witness :
  validateAndRender literalRegExp demoPage demoFetch "missing.json"
    (requiring ["name"]) (Some "mount") countingRender (0, [])
  = (Normal tt,
     (0, [ConsoleErrorThrown "missing.json HTTP 404";
          SetInnerHTML "mount" (htmlLoadFailed "missing.json" "missing.json HTTP 404")])).
Proof.
  apply (@http_failure_reported nat literalRegExp demoPage demoFetch "missing.json"
           (requiring ["name"]) (Some "mount") countingRender
           (mkResponse false 404 (throw "Unexpected token < in JSON at position 0"))
           0 0 []).
  - reflexivity.
  - reflexivity.
Defined.

(** The network is down and no mount was given: one console entry. *)
Lemma fetch_rejection_reported_witness :
  validateAndRender literalRegExp demoPage offline "ok.json"
    (requiring ["name"]) None countingRender (0, [])
  = (Normal tt, (0, [ConsoleErrorThrown "Failed to fetch"])).
Proof.
  apply (@fetch_rejection_reported nat literalRegExp demoPage offline "ok.json"
           (requiring ["name"]) None countingRender "Failed to fetch" 0 0 []).
  reflexivity.
Defined.

(** An HTML page served for a JSON file; the mount [nowhere] does not
    exist. *)
Lemma decode_failure_reported_witness :
  validateAndRender literalRegExp demoPage (serve htmlBody) "ok.json"
    (requiring ["name"]) (Some "nowhere") countingRender (0, [])
  = (Normal tt, (0, [ConsoleErrorThrown "Unexpected token < in JSON at position 0"])).
Proof.
  apply (@decode_failure_reported nat literalRegExp demoPage (serve htmlBody) "ok.json"
           (requiring ["name"]) (Some "nowhere") countingRender htmlBody
           "Unexpected token < in JSON at position 0" 0 0 0 []).
  - reflexivity.
  - reflexivity.
  - reflexivity.
Defined.

(** A string document against a schema with the pattern [(]. *)
Lemma matcher_failure_reported_witness :
  validateAndRender literalRegExp demoPage
    (serve (mkResponse true 200 (ret (VStr "abc")))) "s.json"
    (matching "(") (Some "mount") countingRender (0, [])
  = (Normal tt,
     (0, [ConsoleErrorThrown "Invalid regular expression: /(/: Unterminated group";
          SetInnerHTML "mount"
            (htmlLoadFailed "s.json"
               "Invalid regular expression: /(/: Unterminated group")])).
Proof.
  apply (@matcher_failure_reported nat literalRegExp demoPage
           (serve (mkResponse true 200 (ret (VStr "abc")))) "s.json"
           (matching "(") (Some "mount") countingRender
           (mkResponse true 200 (ret (VStr "abc"))) (VStr "abc")
           "Invalid regular expression: /(/: Unterminated group" 0 0 0 0 []).
  - reflexivity.
  - reflexivity.
  - reflexivity.
  - reflexivity.
Defined.

(** [bad.json] holds an array where an object is asked for. *)
Lemma validation_failure_shown_witness :
  validateAndRender literalRegExp demoPage demoFetch "bad.json"
    (requiring ["name"]) (Some "mount") countingRender (0, [])
  = (Normal tt,
     (0, panelEvents "bad.json" [withPath "bad" (msgType "object" "array")] []
         ++ [SetInnerHTML "mount" (htmlValidationFailed "bad.json")])).
Proof.
  apply (@validation_failure_shown nat literalRegExp demoPage demoFetch "bad.json"
           (requiring ["name"]) (Some "mount") countingRender
           (mkResponse true 200 (ret (VArr [VNum 1%float]))) (VArr [VNum 1%float])
           (mkResult [withPath "bad" (msgType "object" "array")] []) 0 0 0 0 []).
  - reflexivity.
  - reflexivity.
  - reflexivity.
  - reflexivity.
  - discriminate.
Defined.

(** [ok.json] is valid and rendered: the panel, then the render call. *)
Lemma success_renders_only_witness :
  validateAndRender literalRegExp demoPage demoFetch "ok.json"
    (requiring ["name"]) (Some "mount") countingRender (0, [])
  = (Normal tt,
     (1, panelEvents "ok.json" [] [] ++ [RenderCall (VObj [("name", VStr "x")])])).
Proof.
  apply (@success_renders_only nat literalRegExp demoPage demoFetch "ok.json"
           (requiring ["name"]) (Some "mount") countingRender
           (mkResponse true 200 (ret (VObj [("name", VStr "x")])))
           (VObj [("name", VStr "x")]) (mkResult [] []) 0 0 0 0 1 []).
  - reflexivity.
  - reflexivity.
  - reflexivity.
  - reflexivity.
  - reflexivity.
  - reflexivity.
Defined.


(** Without a type, the required key, the malformed pattern and the
    throwing hook are all left alone. *)
Lemma untyped_schema_accepts_all_witness :
  validateAgainstSchema literalRegExp (VObj []) untyped "doc" 0
  = (Normal (mkResult [] []), 0).
Proof.
  apply (@untyped_schema_accepts_all nat literalRegExp (VObj []) untyped "doc" 0).
  - reflexivity.
  - left. reflexivity.
Defined.

(** [{ anyOf: [] }] against [null]. *)
Lemma empty_anyOf_rejects_all_witness :
  validateAgainstSchema literalRegExp VNull
    (mkSchema (World := nat) None None None None None None (Some []) None) "doc" 0
  = (Normal (mkResult [withPath "doc" msgAnyOf] []), 0).
Proof.
  apply (@empty_anyOf_rejects_all nat literalRegExp VNull
           (mkSchema None None None None None None (Some []) None) "doc" 0).
  reflexivity.
Defined.

(** The last alternative would accept the string, the second one throws. *)
Lemma throwing_alternative_aborts_anyOf_witness :
  validateAgainstSchema literalRegExp (VStr "x") brokenAlternative "" 0
  = (Throw "Invalid regular expression: /(/: Unterminated group", 0).
Proof.
  apply (@throwing_alternative_aborts_anyOf nat literalRegExp (VStr "x")
           brokenAlternative "" [typed "number"] [typed "string"] (matching "(")
           [mkResult [msgType "number" "string"] []]
           "Invalid regular expression: /(/: Unterminated group" 0 0 0).
  - reflexivity.
  - reflexivity.
  - reflexivity.
Defined.

(** The pattern [ab] against a string that does not contain it. *)
Lemma pattern_rule_witness :
  validateAgainstSchema literalRegExp (VStr "xyz") (matching (World := nat) "ab") "doc" 0
  = (Normal (mkResult [withPath "doc" (msgPattern "ab")] []), 0).
Proof.
  apply (@pattern_rule nat literalRegExp (matching "ab") "doc" "xyz" "ab"
           (fun s => match index 0 "ab" s with Some _ => true | None => false end) 0).
  - reflexivity.
  - reflexivity.
  - reflexivity.
  - discriminate.
  - reflexivity.
Defined.

(** The pattern [(] against any string. *)
Lemma malformed_pattern_throws_witness :
  validateAgainstSchema literalRegExp (VStr "xyz") (matching (World := nat) "(") "doc" 0
  = (Throw "Invalid regular expression: /(/: Unterminated group", 0).
Proof.
  apply (@malformed_pattern_throws nat literalRegExp (matching "(") "doc" "xyz" "("
           "Invalid regular expression: /(/: Unterminated group" 0).
  - reflexivity.
  - reflexivity.
  - reflexivity.
  - discriminate.
  - reflexivity.
Defined.

(** [{ type: "array", minItems: 3 }] against a mixed array of two. *)
Lemma array_without_items_witness :
  validateAgainstSchema literalRegExp (VArr [VNum 1%float; VStr "x"])
    (mkSchema (World := nat) (Some "array") None None None (Some 3%Z) None None None)
    "doc" 0
  = (Normal (mkResult [withPath "doc" (msgMinItems 2 3)] []), 0).
Proof.
  apply (@array_without_items nat literalRegExp
           (mkSchema (Some "array") None None None (Some 3%Z) None None None)
           "doc" [VNum 1%float; VStr "x"] 0).
  - reflexivity.
  - reflexivity.
  - reflexivity.
Defined.

(** A hook that answers [true] rejects nothing. *)
Lemma hook_other_results_ignored_witness :
  validateAgainstSchema literalRegExp (VObj []) (withCustom alwaysTrue) "doc" 0
  = (Normal (mkResult [] []), 0).
Proof.
  apply (@hook_other_results_ignored nat literalRegExp (withCustom alwaysTrue) "doc" []
           alwaysTrue [] (VBool true) 0 0 0).
  - reflexivity.
  - reflexivity.
  - reflexivity.
  - reflexivity.
  - reflexivity.
  - intros s E. discriminate E.
Defined.

(** A valid person: no errors, hence no warnings. *)
Lemma no_errors_no_warnings_witness :
  validateAgainstSchema literalRegExp (VObj [("name", VStr "x")]) (person (World := nat))
    "doc" 0 = (Normal (mkResult [] []), 0)
  /\ warnings (mkResult [] []) = [].
Proof.
  split; [reflexivity|].
  apply (@no_errors_no_warnings nat literalRegExp (VObj [("name", VStr "x")])
           person "doc" 0 0 (mkResult [] [])).
  - reflexivity.
  - reflexivity.
Defined.


(** An undeclared [age] in a person. *)
Lemma undeclared_key_ignored_witness :
  validateAgainstSchema literalRegExp
    (VObj [("name", VStr "x"); ("age", VNum 3%float); ("tags", VArr [])])
    (person (World := nat)) "doc" 0
  = validateAgainstSchema literalRegExp
      (VObj [("name", VStr "x"); ("tags", VArr [])]) (person (World := nat)) "doc" 0.
Proof.
  apply (@undeclared_key_ignored nat literalRegExp person "doc" "age" (VNum 3%float)
           [("name", VStr "x")] [("tags", VArr [])] 0).
  - reflexivity.
  - reflexivity.
  - reflexivity.
  - reflexivity.
  - intros [E|[]]. discriminate E.
Defined.

(** [required: ["name", "tags"]] against a document with a name only. *)
Lemma required_own_keys_witness :
  validateAgainstSchema literalRegExp (VObj [("name", VStr "x")])
    (requiring (World := nat) ["name"; "tags"]) "doc" 0
  = (Normal (mkResult [withPath "doc" (msgMissing "tags")] []), 0).
Proof.
  apply (@required_own_keys nat literalRegExp (requiring ["name"; "tags"]) "doc"
           [("name", VStr "x")] 0).
  - reflexivity.
  - reflexivity.
  - reflexivity.
  - reflexivity.
  - intros k [<-|[<-|[]]] H; cbn in H;
      repeat (destruct H as [H|H]; [discriminate H|]); exact H.
Defined.
